(** * Message board server: rate-limited posting and message ordering

    A shallow embedding of the resolvers of [server.js] (users, messages,
    the in-memory rate limiter, previous/next message linkage) and the
    properties of them that the specification states.

    Conventions of the embedding.
    - The two SQLite tables are lists of rows in rowid order, which is
      the order of insertion; a query without [ORDER BY] scans the table
      in that order.
    - [rateLimitStore], a JS [Map] from user identifiers to arrays of
      millisecond timestamps, is a [gmap string (list Z)].
    - A resolver is a computation in the monad [M]: it reads and writes
      the world (database and rate-limit store), returns or throws, and
      leaves a trace of the store and rate-limiter accesses it made.
    - [uuidv4()], [Date.now()] and [new Date().toISOString()] are values
      handed in by the environment, one record [Env] per request.
    - Requests are handled one after the other; the interleaving of
      concurrent requests at an [await] is not modelled.
    - [console.log] and [console.warn] are not modelled. *)

From Stdlib Require Import ZArith List String Sorted Permutation Lia.
From stdpp Require Import base option list strings gmap.
Import ListNotations.

Local Open Scope string_scope.
Local Open Scope list_scope.
Local Open Scope Z_scope.

(** ** Data model *)

(** A row of [users(id, name, email, creationDate)]. *)
Record User := mkUser {
  user_id : string;
  user_name : string;
  user_email : string;
  user_creationDate : string
}.

(** A row of [messages(id, userId, body, creationDate)]. *)
Record Message := mkMessage {
  msg_id : string;
  msg_userId : string;
  msg_body : string;
  msg_creationDate : string
}.

Record Db := mkDb {
  users : list User;
  messages : list Message
}.

Record World := mkWorld {
  db : Db;
  rateLimitStore : gmap string (list Z)
}.

(** What the environment supplies to one request. *)
Record Env := mkEnv {
  uuidv4 : string;
  Date_now : Z;
  toISOString : string
}.

(** A thrown value: [new Error(message)] raised by a resolver, or the
    rejection of a [db.run] by a constraint of the schema. *)
Inductive exn :=
| Error (message : string)
| SqliteConstraint (message : string).

Definition exn_message (e : exn) : string :=
  match e with
  | Error m => m
  | SqliteConstraint m => m
  end.

(** The accesses a resolver makes: [db.get]/[db.all], [db.run],
    [rateLimitStore.get] and [rateLimitStore.set]. *)
Inductive effect := DbRead | DbWrite | RlRead | RlWrite.

Inductive outcome (A : Type) :=
| Return (a : A)
| Throw (e : exn).
Arguments Return {A} a.
Arguments Throw {A} e.

(** ** The resolver monad *)

Definition M (A : Type) : Type := World -> outcome A * World * list effect.

Definition ret {A} (a : A) : M A := fun w => (Return a, w, []).

Definition throw {A} (e : exn) : M A := fun w => (Throw e, w, []).

Definition bind {A B} (c : M A) (k : A -> M B) : M B :=
  fun w =>
    match c w with
    | (Return a, w1, t1) =>
        match k a w1 with
        | (r, w2, t2) => (r, w2, t1 ++ t2)
        end
    | (Throw e, w1, t1) => (Throw e, w1, t1)
    end.

Notation "'let*' x ':=' c1 'in' c2" := (bind c1 (fun x => c2))
  (at level 10, x name, c1 at level 100, c2 at level 200).

Definition result {A} (r : outcome A * World * list effect) : outcome A :=
  fst (fst r).
Definition world {A} (r : outcome A * World * list effect) : World :=
  snd (fst r).
Definition trace {A} (r : outcome A * World * list effect) : list effect :=
  snd r.

Definition count_effect (e : effect) (t : list effect) : nat :=
  length (List.filter
            (fun x => match e, x with
                      | DbRead, DbRead | DbWrite, DbWrite
                      | RlRead, RlRead | RlWrite, RlWrite => true
                      | _, _ => false
                      end) t).

(** ** The persistent store *)

(** [db.get] and [db.all]: a read-only query. *)
Definition db_query {A} (q : Db -> A) : M A :=
  fun w => (Return (q (db w)), w, [DbRead]).

(** [db.run]: a statement that either is rejected or yields the new
    database. *)
Definition db_run (stmt : Db -> exn + Db) : M unit :=
  fun w =>
    match stmt (db w) with
    | inl e => (Throw e, w, [DbWrite])
    | inr d => (Return tt, mkWorld d (rateLimitStore w), [DbWrite])
    end.

(** [SELECT id FROM users WHERE id = ?] through [db.get]: the first
    matching row, [None] for [undefined]. *)
Definition select_user_id_by_id (userId : string) (d : Db) : option string :=
  user_id <$> List.find (fun u => String.eqb (user_id u) userId) (users d).

(** [SELECT id FROM users WHERE email = ?] through [db.get]. *)
Definition select_user_id_by_email (email : string) (d : Db) : option string :=
  user_id <$> List.find (fun u => String.eqb (user_email u) email) (users d).

(** [SELECT * FROM users WHERE id = ?] through [db.get]. *)
Definition select_user_by_id (userId : string) (d : Db) : option User :=
  List.find (fun u => String.eqb (user_id u) userId) (users d).

(** [SELECT * FROM users]. *)
Definition select_users (d : Db) : list User := users d.

(** [ORDER BY creationDate ASC] on a TEXT column: ascending in the
    byte order of the strings; rows with equal dates keep the order of
    the scan (a stable insertion sort). *)
Fixpoint insert_by_creationDate (m : Message) (l : list Message) : list Message :=
  match l with
  | [] => [m]
  | x :: l' =>
      if String.leb (msg_creationDate m) (msg_creationDate x)
      then m :: x :: l'
      else x :: insert_by_creationDate m l'
  end.

Fixpoint order_by_creationDate (l : list Message) : list Message :=
  match l with
  | [] => []
  | m :: l' => insert_by_creationDate m (order_by_creationDate l')
  end.

(** [SELECT * FROM messages ORDER BY creationDate ASC]. *)
Definition select_messages_ordered (d : Db) : list Message :=
  order_by_creationDate (messages d).

(** [SELECT * FROM messages WHERE userId = ?]. *)
Definition select_messages_by_userId (userId : string) (d : Db) : list Message :=
  List.filter (fun m => String.eqb (msg_userId m) userId) (messages d).

(** [SELECT * FROM messages WHERE userId = ? ORDER BY creationDate ASC]. *)
Definition select_messages_by_userId_ordered (userId : string) (d : Db)
  : list Message :=
  order_by_creationDate (select_messages_by_userId userId d).

(** [SELECT COUNT( * ) AS count FROM messages WHERE userId = ?]. *)
Definition count_messages_by_userId (userId : string) (d : Db) : Z :=
  Z.of_nat (length (select_messages_by_userId userId d)).

(** [INSERT INTO users ...]: rejected when the primary key [id] or the
    UNIQUE column [email] is already present. *)
Definition insert_user (u : User) (d : Db) : exn + Db :=
  if existsb (fun x => String.eqb (user_id x) (user_id u)) (users d)
  then inl (SqliteConstraint "SQLITE_CONSTRAINT: UNIQUE constraint failed: users.id")
  else if existsb (fun x => String.eqb (user_email x) (user_email u)) (users d)
  then inl (SqliteConstraint "SQLITE_CONSTRAINT: UNIQUE constraint failed: users.email")
  else inr (mkDb (users d ++ [u]) (messages d)).

(** [INSERT INTO messages ...]: rejected when the primary key [id] is
    already present.  SQLite does not enforce the FOREIGN KEY clause
    unless the connection turns it on, which the server never does. *)
Definition insert_message (m : Message) (d : Db) : exn + Db :=
  if existsb (fun x => String.eqb (msg_id x) (msg_id m)) (messages d)
  then inl (SqliteConstraint "SQLITE_CONSTRAINT: UNIQUE constraint failed: messages.id")
  else inr (mkDb (users d) (messages d ++ [m])).

(** ** The rate-limit store *)

(** [rateLimitStore.get(userId) || []]: an array is truthy even when
    empty, so the default is taken only when the key is missing. *)
Definition rl_get (userId : string) : M (list Z) :=
  fun w => (Return (default [] (rateLimitStore w !! userId)), w, [RlRead]).

(** [rateLimitStore.set(userId, timestamps)]. *)
Definition rl_set (userId : string) (timestamps : list Z) : M unit :=
  fun w => (Return tt,
            mkWorld (db w) (<[userId := timestamps]> (rateLimitStore w)),
            [RlWrite]).

(** ** Resolvers *)

Definition msg_user_not_found : string := "User not found.".
Definition msg_user_not_found_post : string :=
  "User not found. Cannot post message.".
Definition msg_duplicate_email : string :=
  "A user with this email already exists.".
Definition msg_rate_limit : string :=
  "Rate limit exceeded. You can post a maximum of 10 messages per hour.".

(** [Query.listUsers] *)
Definition listUsers : M (list User) := db_query select_users.

(** [Query.listAllMessages] *)
Definition listAllMessages : M (list Message) :=
  db_query select_messages_ordered.

(** [Query.listMessagesForUser] *)
Definition listMessagesForUser (userId : string) : M (list Message) :=
  let* user := db_query (select_user_id_by_id userId) in
  match user with
  | None => throw (Error msg_user_not_found)
  | Some _ => db_query (select_messages_by_userId userId)
  end.

(** [Mutation.createUser] *)
Definition createUser (env : Env) (name email : string) : M User :=
  let* existingUser := db_query (select_user_id_by_email email) in
  match existingUser with
  | Some _ => throw (Error msg_duplicate_email)
  | None =>
      let newUser := mkUser (uuidv4 env) name email (toISOString env) in
      let* _ := db_run (insert_user newUser) in
      ret newUser
  end.

(** [Mutation.postMessage] *)
Definition postMessage (env : Env) (userId messageBody : string) : M Message :=
  let* user := db_query (select_user_id_by_id userId) in
  match user with
  | None => throw (Error msg_user_not_found_post)
  | Some _ =>
      let now := Date_now env in
      let oneHourAgo := now - (60 * 60 * 1000) in
      let* userTimestamps := rl_get userId in
      let recentTimestamps :=
        List.filter (fun ts => oneHourAgo <? ts) userTimestamps in
      if 10 <=? Z.of_nat (length recentTimestamps)
      then throw (Error msg_rate_limit)
      else
        let newMessage :=
          mkMessage (uuidv4 env) userId messageBody (toISOString env) in
        let* _ := db_run (insert_message newMessage) in
        let* _ := rl_set userId (recentTimestamps ++ [now]) in
        ret newMessage
  end.

(** [User.numberOfPosts] *)
Definition numberOfPosts (user : User) : M Z :=
  db_query (count_messages_by_userId (user_id user)).

(** [Message.user] *)
Definition messageUser (message : Message) : M (option User) :=
  db_query (select_user_by_id (msg_userId message)).

(** [Array.prototype.findIndex]: the index of the first element that
    satisfies [p], [-1] when there is none. *)
Fixpoint findIndex {A} (p : A -> bool) (l : list A) : Z :=
  match l with
  | [] => -1
  | x :: l' =>
      if p x then 0
      else let i := findIndex p l' in if i <? 0 then -1 else i + 1
  end.

(** [a[i]] for an integer [i]; [None] stands for [undefined], which a
    nullable GraphQL field reports as [null]. *)
Definition array_get {A} (a : list A) (i : Z) : option A :=
  if i <? 0 then None else nth_error a (Z.to_nat i).

(** [Message.previousPostedMessage]; [None] is [null]. *)
Definition previousPostedMessage (message : Message) : M (option Message) :=
  let* userMessages :=
    db_query (select_messages_by_userId_ordered (msg_userId message)) in
  let currentIndex :=
    findIndex (fun msg => String.eqb (msg_id msg) (msg_id message)) userMessages in
  ret (if 0 <? currentIndex
       then array_get userMessages (currentIndex - 1)
       else None).

(** [Message.nextPostedMessage]; [None] is [null]. *)
Definition nextPostedMessage (message : Message) : M (option Message) :=
  let* userMessages :=
    db_query (select_messages_by_userId_ordered (msg_userId message)) in
  let currentIndex :=
    findIndex (fun msg => String.eqb (msg_id msg) (msg_id message)) userMessages in
  ret (if currentIndex <? Z.of_nat (length userMessages) - 1
       then array_get userMessages (currentIndex + 1)
       else None).

(** ** Requests

    The server handles one request after the other; a request that
    throws does not stop the following ones. *)

Inductive request :=
| ReqListUsers
| ReqListAllMessages
| ReqListMessagesForUser (userId : string)
| ReqCreateUser (env : Env) (name email : string)
| ReqPostMessage (env : Env) (userId messageBody : string).

Inductive reply :=
| RepUser (u : User)
| RepMessage (m : Message)
| RepUsers (l : list User)
| RepMessages (l : list Message).

Definition handle (q : request) : M reply :=
  match q with
  | ReqListUsers => let* l := listUsers in ret (RepUsers l)
  | ReqListAllMessages => let* l := listAllMessages in ret (RepMessages l)
  | ReqListMessagesForUser userId =>
      let* l := listMessagesForUser userId in ret (RepMessages l)
  | ReqCreateUser env name email =>
      let* u := createUser env name email in ret (RepUser u)
  | ReqPostMessage env userId messageBody =>
      let* m := postMessage env userId messageBody in ret (RepMessage m)
  end.

Fixpoint serve (qs : list request) (w : World) : list (outcome reply) * World :=
  match qs with
  | [] => ([], w)
  | q :: qs' =>
      let r := handle q w in
      let rest := serve qs' (world r) in
      (result r :: fst rest, snd rest)
  end.

(** The world of a freshly started process over an existing database
    file: [rateLimitStore] is [new Map()]. *)
Definition start (d : Db) : World := mkWorld d ∅.

(** ** Notions the specification uses *)

(** A user with identifier [userId] exists in the store. *)
Definition has_user (userId : string) (d : Db) : Prop :=
  userId ∈ map user_id (users d).

(** A user with this email is present. *)
Definition email_present (email : string) (d : Db) : Prop :=
  email ∈ map user_email (users d).

(** No message row carries the identifier [id]. *)
Definition fresh_message_id (id : string) (d : Db) : Prop :=
  id ∉ map msg_id (messages d).

(** No user row carries the identifier [id]. *)
Definition fresh_user_id (id : string) (d : Db) : Prop :=
  id ∉ map user_id (users d).

(** The stored timestamp sequence of a user, empty if there is none. *)
Definition stored_timestamps (userId : string) (w : World) : list Z :=
  default [] (rateLimitStore w !! userId).

Definition windowDuration : Z := 3600000.
Definition limit : nat := 10.

(** The timestamps strictly greater than [now - windowDuration]. *)
Definition in_window (now : Z) (l : list Z) : list Z :=
  filter (λ ts, now - windowDuration < ts) l.

(** Every stored sequence has at most [limit] elements. *)
Definition rate_limit_bounded (w : World) : Prop :=
  ∀ userId l, rateLimitStore w !! userId = Some l → (length l ≤ limit)%nat.

(** The message row that a post of [messageBody] by [userId] creates. *)
Definition new_message (env : Env) (userId messageBody : string) : Message :=
  mkMessage (uuidv4 env) userId messageBody (toISOString env).

(** The user row that [createUser] creates. *)
Definition new_user (env : Env) (name email : string) : User :=
  mkUser (uuidv4 env) name email (toISOString env).

Global Instance has_user_dec userId d : Decision (has_user userId d).
Proof. unfold has_user. apply _. Defined.
Global Instance email_present_dec email d : Decision (email_present email d).
Proof. unfold email_present. apply _. Defined.
Global Instance fresh_message_id_dec id d : Decision (fresh_message_id id d).
Proof. unfold fresh_message_id. apply _. Defined.
Global Instance fresh_user_id_dec id d : Decision (fresh_user_id id d).
Proof. unfold fresh_user_id. apply _. Defined.

(** ** Sample data *)

Module Sample.
Definition ann : User :=
  mkUser "u-ann" "Ann" "ann@example.com" "2024-05-01T09:00:00.000Z".
Definition bob : User :=
  mkUser "u-bob" "Bob" "bob@example.com" "2024-05-01T09:30:00.000Z".

Definition m1 : Message :=
  mkMessage "m-1" "u-ann" "Message 1" "2024-05-01T10:00:00.000Z".
Definition m2 : Message :=
  mkMessage "m-2" "u-ann" "Message 2" "2024-05-01T10:05:00.000Z".
Definition m3 : Message :=
  mkMessage "m-3" "u-ann" "Message 3" "2024-05-01T10:10:00.000Z".
Definition b1 : Message :=
  mkMessage "m-b" "u-bob" "Hello" "2024-05-01T10:07:00.000Z".

Definition board : Db := mkDb [ann; bob] [m1; b1; m2; m3].

(** Ann has posted three times in the last minutes, Bob ten times. *)
Definition busy : World :=
  mkWorld board
    (<["u-bob" := [1000; 2000; 3000; 4000; 5000;
                   6000; 7000; 8000; 9000; 10000]]>
       (<["u-ann" := [500; 4500; 9500]]> ∅)).

Definition env : Env := mkEnv "m-4" 20000 "2024-05-01T10:20:00.000Z".
End Sample.

(** ** Sequences of signups *)

(** One [createUser] call: what the environment hands in, the name and
    the email. *)
Record Signup := mkSignup {
  signup_env : Env;
  signup_name : string;
  signup_email : string
}.

Definition signup_request (s : Signup) : request :=
  ReqCreateUser (signup_env s) (signup_name s) (signup_email s).

Definition signup_user (s : Signup) : User :=
  new_user (signup_env s) (signup_name s) (signup_email s).

Definition signup_id (s : Signup) : string := uuidv4 (signup_env s).

Module SampleSignups.
Definition one : Signup :=
  mkSignup (mkEnv "u-1" 1000 "2024-05-01T08:00:00.000Z")
           "User One" "one@example.com".
Definition two : Signup :=
  mkSignup (mkEnv "u-2" 2000 "2024-05-01T08:00:01.000Z")
           "User Two" "two@example.com".
Definition three : Signup :=
  mkSignup (mkEnv "u-3" 3000 "2024-05-01T08:00:02.000Z")
           "User Three" "three@example.com".
Definition empty : World := start (mkDb [] []).
End SampleSignups.

(** ** Sequences of posts *)

(** One [postMessage] call of a given user: what the environment hands
    in and the message body. *)
Record Post := mkPost {
  post_env : Env;
  post_body : string
}.

Definition post_request (userId : string) (p : Post) : request :=
  ReqPostMessage (post_env p) userId (post_body p).

Definition post_message (userId : string) (p : Post) : Message :=
  new_message (post_env p) userId (post_body p).

Definition post_id (p : Post) : string := uuidv4 (post_env p).

Definition post_time (p : Post) : Z := Date_now (post_env p).

(** All the instants of [ts] fall within one hour: any two of them are
    less than [windowDuration] apart. *)
Definition within_one_hour (ts : list Z) : Prop :=
  Forall (λ a, Forall (λ b, a - b < windowDuration) ts) ts.

Global Instance within_one_hour_dec ts : Decision (within_one_hour ts).
Proof. unfold within_one_hour. apply _. Defined.

Module SamplePosts.
Definition at_ (id : string) (now : Z) : Post :=
  mkPost (mkEnv id now "2024-05-01T11:00:00.000Z") "Spam".

Definition ten : list Post :=
  [at_ "p-01" 1000; at_ "p-02" 2000; at_ "p-03" 3000; at_ "p-04" 4000;
   at_ "p-05" 5000; at_ "p-06" 6000; at_ "p-07" 7000; at_ "p-08" 8000;
   at_ "p-09" 9000; at_ "p-10" 10000].

(** One millisecond less than an hour after the first post. *)
Definition late : Env := mkEnv "p-11" 3600999 "2024-05-01T11:59:59.999Z".

(** Exactly one hour after the first post. *)
Definition hour_after_first : Env :=
  mkEnv "p-11" 3601000 "2024-05-01T12:00:00.000Z".

Definition fresh_start : World := start Sample.board.
End SamplePosts.

(** ** Message order *)

(** [a] is not created after [b], in the byte order of the dates. *)
Definition date_le (a b : Message) : Prop :=
  String.leb (msg_creationDate a) (msg_creationDate b) = true.

(** The position of the first message of [l] whose identifier is [id]. *)
Fixpoint position_of (id : string) (l : list Message) : option nat :=
  match l with
  | [] => None
  | x :: l' =>
      if decide (msg_id x = id) then Some 0%nat else S <$> position_of id l'
  end.

Module SampleUnknown.
(** A message of Ann that the table does not hold. *)
Definition ghost : Message :=
  mkMessage "m-0" "u-ann" "Draft" "2024-05-01T10:06:00.000Z".
End SampleUnknown.

(** ** Integrity of the store *)

(** What the schema declares: [id] is the primary key of both tables
    and [email] is UNIQUE. *)
Definition db_unique (d : Db) : Prop :=
  NoDup (map user_id (users d)) ∧
  NoDup (map user_email (users d)) ∧
  NoDup (map msg_id (messages d)).

(** What [FOREIGN KEY (userId) REFERENCES users (id)] declares: every
    message belongs to a user of the table. *)
Definition db_referential (d : Db) : Prop :=
  Forall (λ m, has_user (msg_userId m) d) (messages d).

Global Instance User_eq_dec : EqDecision User.
Proof. solve_decision. Defined.
Global Instance Message_eq_dec : EqDecision Message.
Proof. solve_decision. Defined.
Global Instance db_unique_dec d : Decision (db_unique d).
Proof. unfold db_unique. apply _. Defined.
Global Instance db_referential_dec d : Decision (db_referential d).
Proof. unfold db_referential. apply _. Defined.

(** The three things a request can do to the database: nothing, append
    a user whose identifier and email are new, append a message whose
    identifier is new and whose owner exists. *)
Inductive db_step (d : Db) : Db → Prop :=
| db_step_same : db_step d d
| db_step_user (u : User) :
    fresh_user_id (user_id u) d →
    ¬ email_present (user_email u) d →
    db_step d (mkDb (users d ++ [u]) (messages d))
| db_step_message (m : Message) :
    fresh_message_id (msg_id m) d →
    has_user (msg_userId m) d →
    db_step d (mkDb (users d) (messages d ++ [m])).

(** ** Accepted posts *)



(** ** The random-integer script

    [generator.js]: twenty promises of [getRandomInteger(100)] are
    settled; the fulfilled values and the rejection reasons are
    collected, the values are logged in ascending order with the number
    of failures, and an assertion compares the counts.  What each
    promise settles to is decided by [Math.random] and a timer in
    [random.js]; here it is handed in, a fulfilled value being the
    integer that [Math.floor] returned. *)

Module Generator.
(** An element of the array that [Promise.allSettled] resolves to. *)
Inductive settled :=
| fulfilled (value : Z)
| rejected (reason : string).

Definition is_fulfilled (r : settled) : bool :=
  match r with fulfilled _ => true | rejected _ => false end.

Definition is_rejected (r : settled) : bool :=
  match r with fulfilled _ => false | rejected _ => true end.

(** The [forEach] of the first handler: [results.push(result.value)]
    or [errors.push(result.reason)], from the left. *)
Definition collect (data : list settled) : list Z * list string :=
  fold_left
    (fun acc r =>
       match r with
       | fulfilled v => (fst acc ++ [v], snd acc)
       | rejected e => (fst acc, snd acc ++ [e])
       end)
    data ([], []).

(** [(a, b) => a - b] *)
Definition compareFn (a b : Z) : Z := a - b.

(** [Array.prototype.sort] with a comparator: [a] goes before [b] when
    the comparator is not positive (a stable insertion sort). *)
Fixpoint sort_insert (a : Z) (l : list Z) : list Z :=
  match l with
  | [] => [a]
  | b :: l' => if compareFn a b <=? 0 then a :: b :: l' else b :: sort_insert a l'
  end.

Fixpoint sort (l : list Z) : list Z :=
  match l with
  | [] => []
  | a :: l' => sort_insert a (sort l')
  end.

(** What the [finally] handler logs: the numbers and the number of
    failed attempts. *)
Definition report (data : list settled) : list Z * Z :=
  let '(results, errors) := collect data in
  (sort results, Z.of_nat (length errors)).

(** The condition of the [console.assert] of the second handler;
    [data] has one element for each promise, so its length is
    [promises.length]. *)
Definition counts_match (data : list settled) : bool :=
  let fulfilledCount := Z.of_nat (length (List.filter is_fulfilled data)) in
  let errorCount := Z.of_nat (length (List.filter is_rejected data)) in
  fulfilledCount + errorCount =? Z.of_nat (length data).

(** The values of the fulfilled elements and the reasons of the
    rejected ones, in the order of the promises. *)
Definition values (data : list settled) : list Z :=
  omap (λ r, match r with fulfilled v => Some v | rejected _ => None end) data.

Definition reasons (data : list settled) : list string :=
  omap (λ r, match r with fulfilled _ => None | rejected e => Some e end) data.

Definition sample : list settled :=
  [fulfilled 42; rejected "not enough entropy"; fulfilled 7; fulfilled 99;
   rejected "not enough entropy"; fulfilled 7; fulfilled 0].
End Generator.

(** ** More sample data *)

Module SampleMore.
(** A signup with an email and an identifier that the board does not
    have. *)
Definition cyd : Signup :=
  mkSignup (mkEnv "u-cyd" 30000 "2024-05-01T10:30:00.000Z")
           "Cyd" "cyd@example.com".


(** Two hours after Bob's last recorded post. *)
Definition later : Env := mkEnv "m-5" 7210000 "2024-05-01T12:20:00.000Z".

Definition mixed : list request :=
  [ReqCreateUser (signup_env cyd) "Cyd" "cyd@example.com";
   ReqPostMessage Sample.env "u-cyd" "Hi";
   ReqPostMessage Sample.env "u-ann" "Again";
   ReqCreateUser Sample.env "Ann II" "ann@example.com";
   ReqListUsers;
   ReqPostMessage later "u-zoe" "Nobody"].
End SampleMore.

(** * Properties *)

(** ** Basic facts about the queries *)

Section Lookup.
Context {A : Type} (key : A → string).

Lemma existsb_key_iff (k : string) (l : list A) :
  existsb (fun x => String.eqb (key x) k) l = true ↔ k ∈ map key l.
Proof.
  induction l as [|x l IH]; simpl.
  - split; [discriminate | intros H; inversion H].
  - rewrite orb_true_iff, IH, elem_of_cons, String.eqb_eq.
    split; intros [H|H]; auto.
Qed.

Lemma existsb_key_false (k : string) (l : list A) :
  existsb (fun x => String.eqb (key x) k) l = false ↔ k ∉ map key l.
Proof.
  by rewrite <- not_true_iff_false, existsb_key_iff.
Qed.

Lemma find_key_None (k : string) (l : list A) :
  List.find (fun x => String.eqb (key x) k) l = None ↔ k ∉ map key l.
Proof.
  induction l as [|x l IH]; simpl.
  - split; [intros _ H; inversion H | done].
  - rewrite not_elem_of_cons. destruct (String.eqb_spec (key x) k) as [E|E].
    + split; [discriminate | intros [H _]; congruence].
    + rewrite IH. split; [intros H; split; [congruence | done] | tauto].
Qed.

Lemma find_key_Some (k : string) (l : list A) :
  k ∈ map key l → ∃ x, List.find (fun x => String.eqb (key x) k) l = Some x
                       ∧ key x = k ∧ x ∈ l.
Proof.
  induction l as [|x l IH]; simpl; intros H.
  - inversion H.
  - destruct (String.eqb_spec (key x) k) as [E|E].
    + exists x. repeat split; [done | left].
    + apply elem_of_cons in H as [H|H]; [congruence|].
      destruct (IH H) as (y & Hy & Hk & Hin). exists y. repeat split; try done.
      by right.
Qed.
End Lookup.

Lemma select_user_id_by_id_None userId d :
  select_user_id_by_id userId d = None ↔ ¬ has_user userId d.
Proof.
  unfold select_user_id_by_id, has_user.
  rewrite fmap_None. apply find_key_None.
Qed.

Lemma select_user_id_by_id_Some userId d :
  has_user userId d → select_user_id_by_id userId d = Some userId.
Proof.
  unfold select_user_id_by_id, has_user. intros H.
  destruct (find_key_Some user_id userId (users d) H) as (x & -> & <- & _).
  done.
Qed.

Lemma select_user_id_by_email_None email d :
  select_user_id_by_email email d = None ↔ ¬ email_present email d.
Proof.
  unfold select_user_id_by_email, email_present.
  rewrite fmap_None. apply find_key_None.
Qed.

Lemma select_user_id_by_email_Some email d :
  email_present email d → is_Some (select_user_id_by_email email d).
Proof.
  unfold select_user_id_by_email, email_present. intros H.
  destruct (find_key_Some user_email email (users d) H) as (x & -> & _).
  by eexists.
Qed.

Lemma insert_message_fresh m d :
  fresh_message_id (msg_id m) d →
  insert_message m d = inr (mkDb (users d) (messages d ++ [m])).
Proof.
  unfold insert_message, fresh_message_id. intros H.
  apply existsb_key_false in H. by rewrite H.
Qed.

Lemma insert_message_taken m d :
  ¬ fresh_message_id (msg_id m) d →
  ∃ s, insert_message m d = inl (SqliteConstraint s).
Proof.
  unfold insert_message, fresh_message_id. intros H.
  destruct (existsb _ _) eqn:E; [by eexists|].
  apply existsb_key_false in E. done.
Qed.

Lemma insert_user_fresh u d :
  fresh_user_id (user_id u) d → ¬ email_present (user_email u) d →
  insert_user u d = inr (mkDb (users d ++ [u]) (messages d)).
Proof.
  unfold insert_user, fresh_user_id, email_present. intros H1 H2.
  apply existsb_key_false in H1, H2. by rewrite H1, H2.
Qed.

(** The code's window filter is the specification's. *)
Lemma filter_window now (l : list Z) :
  List.filter (fun ts => now - 60 * 60 * 1000 <? ts) l = in_window now l.
Proof.
  unfold in_window, windowDuration.
  change (60 * 60 * 1000) with 3600000.
  induction l as [|x l IH]; [done|].
  cbn [List.filter]. rewrite filter_cons, IH.
  destruct (Z.ltb_spec (now - 3600000) x); case_decide; (done || lia).
Qed.

Lemma in_window_length now l : (length (in_window now l) ≤ length l)%nat.
Proof. apply length_filter. Qed.

(** ** [postMessage] and [createUser], case by case *)

Lemma postMessage_eq env userId messageBody w :
  postMessage env userId messageBody w =
  match select_user_id_by_id userId (db w) with
  | None => (Throw (Error msg_user_not_found_post), w, [DbRead])
  | Some _ =>
      let recent := in_window (Date_now env) (stored_timestamps userId w) in
      if decide (limit ≤ length recent)%nat
      then (Throw (Error msg_rate_limit), w, [DbRead; RlRead])
      else
        let m := new_message env userId messageBody in
        match insert_message m (db w) with
        | inl e => (Throw e, w, [DbRead; RlRead; DbWrite])
        | inr d =>
            (Return m,
             mkWorld d (<[userId := recent ++ [Date_now env]]> (rateLimitStore w)),
             [DbRead; RlRead; DbWrite; RlWrite])
        end
  end.
Proof.
  unfold postMessage, bind, db_query, rl_get, rl_set, db_run, throw, ret.
  destruct (select_user_id_by_id userId (db w)); [|done].
  cbn [app]. fold (stored_timestamps userId w). rewrite filter_window.
  cbv zeta. unfold limit.
  destruct (Z.leb_spec 10 (Z.of_nat (length (in_window (Date_now env)
             (stored_timestamps userId w))))); case_decide; try lia; [done|].
  fold (new_message env userId messageBody).
  by destruct (insert_message _ (db w)).
Qed.

Lemma createUser_eq env name email w :
  createUser env name email w =
  match select_user_id_by_email email (db w) with
  | Some _ => (Throw (Error msg_duplicate_email), w, [DbRead])
  | None =>
      let u := new_user env name email in
      match insert_user u (db w) with
      | inl e => (Throw e, w, [DbRead; DbWrite])
      | inr d => (Return u, mkWorld d (rateLimitStore w), [DbRead; DbWrite])
      end
  end.
Proof.
  unfold createUser, bind, db_query, db_run, throw, ret.
  destruct (select_user_id_by_email email (db w)); [done|].
  cbn [app]. fold (new_user env name email).
  by destruct (insert_user _ (db w)).
Qed.

Lemma listMessagesForUser_eq userId w :
  listMessagesForUser userId w =
  match select_user_id_by_id userId (db w) with
  | None => (Throw (Error msg_user_not_found), w, [DbRead])
  | Some _ => (Return (select_messages_by_userId userId (db w)), w,
               [DbRead; DbRead])
  end.
Proof.
  unfold listMessagesForUser, bind, db_query, throw.
  by destruct (select_user_id_by_id userId (db w)).
Qed.

Lemma filter_eqb_key {A} (key : A → string) (k : string) (l : list A) :
  List.filter (fun x => String.eqb (key x) k) l = filter (λ x, key x = k) l.
Proof.
  induction l as [|x l IH]; [done|].
  cbn [List.filter]. rewrite filter_cons, IH.
  destruct (String.eqb_spec (key x) k); case_decide; done.
Qed.

Lemma select_messages_by_userId_eq userId d :
  select_messages_by_userId userId d =
  filter (λ m, msg_userId m = userId) (messages d).
Proof. apply filter_eqb_key. Qed.

(** ** The posting workflow *)

(** C1: in [postMessage] for an existing user [userId] at time [now],
    the stored sequence (empty if none) is filtered to the timestamps
    strictly greater than [now] minus one hour; with at least 10 of them
    the post is denied and the world, in particular the rate-limit
    store, is unchanged; with fewer, and the store accepting the row
    under its new identifier, the post is allowed and the store holds
    the filtered sequence followed by [now] under [userId]. *)
Theorem postMessage_rate_limit_check env userId messageBody w :
  has_user userId (db w) →
  let now := Date_now env in
  let recent := filter (λ ts, now - 3600000 < ts) (stored_timestamps userId w) in
  let r := postMessage env userId messageBody w in
  ((10 ≤ length recent)%nat →
     result r = Throw (Error msg_rate_limit) ∧
     rateLimitStore (world r) = rateLimitStore w ∧
     world r = w) ∧
  ((length recent < 10)%nat → fresh_message_id (uuidv4 env) (db w) →
     result r = Return (new_message env userId messageBody) ∧
     rateLimitStore (world r) = <[userId := recent ++ [now]]> (rateLimitStore w)).
Proof.
  intros Hu now recent r. subst r. rewrite postMessage_eq.
  rewrite (select_user_id_by_id_Some _ _ Hu). cbv zeta.
  fold now. change (in_window now (stored_timestamps userId w)) with recent.
  unfold limit. split.
  - intros Hfull. by rewrite decide_True.
  - intros Hroom Hfresh. rewrite decide_False by lia.
    by rewrite insert_message_fresh.
Qed.

Lemma postMessage_rate_limit_check_witness :
  (result (postMessage Sample.env "u-bob" "Spam" Sample.busy)
     = Throw (Error msg_rate_limit) ∧
   rateLimitStore (world (postMessage Sample.env "u-bob" "Spam" Sample.busy))
     = rateLimitStore Sample.busy) ∧
  (result (postMessage Sample.env "u-ann" "Message 4" Sample.busy)
     = Return (new_message Sample.env "u-ann" "Message 4") ∧
   rateLimitStore (world (postMessage Sample.env "u-ann" "Message 4" Sample.busy))
     = <["u-ann" := [500; 4500; 9500; 20000]]> (rateLimitStore Sample.busy)).
Proof.
  split.
  - destruct (postMessage_rate_limit_check Sample.env "u-bob" "Spam" Sample.busy)
      as [H _]; [compute_done|].
    destruct H as (H1 & H2 & _); [vm_compute; lia|]. by split.
  - destruct (postMessage_rate_limit_check Sample.env "u-ann" "Message 4"
                Sample.busy) as [_ H]; [compute_done|].
    apply H; [vm_compute; lia | compute_done].
Defined.

(** C3: [postMessage] fails with the message "User not found. Cannot
    post message." exactly when no user with identifier [userId] exists,
    and then neither table changes and no write reaches the store. *)
Theorem postMessage_user_not_found env userId messageBody w :
  let r := postMessage env userId messageBody w in
  (result r = Throw (Error "User not found. Cannot post message.")
     ↔ ¬ has_user userId (db w)) ∧
  (¬ has_user userId (db w) →
     users (db (world r)) = users (db w) ∧
     messages (db (world r)) = messages (db w) ∧
     world r = w ∧ count_effect DbWrite (trace r) = 0%nat).
Proof.
  intros r. subst r. rewrite postMessage_eq. split; [split|].
  - intros H Hu. rewrite (select_user_id_by_id_Some _ _ Hu) in H.
    cbv zeta in H. unfold result, msg_rate_limit in H.
    case_decide; [discriminate H|].
    destruct (decide (fresh_message_id (uuidv4 env) (db w))) as [Hf|Hf].
    + by rewrite insert_message_fresh in H.
    + destruct (insert_message_taken (new_message env userId messageBody)
                  (db w) Hf) as [s Hs].
      rewrite Hs in H. discriminate H.
  - intros Hu. apply select_user_id_by_id_None in Hu. by rewrite Hu.
  - intros Hu. apply select_user_id_by_id_None in Hu. by rewrite Hu.
Qed.

Lemma postMessage_user_not_found_witness :
  result (postMessage Sample.env "u-zoe" "Hi" Sample.busy)
    = Throw (Error "User not found. Cannot post message.") ∧
  users (db (world (postMessage Sample.env "u-zoe" "Hi" Sample.busy)))
    = users Sample.board ∧
  messages (db (world (postMessage Sample.env "u-zoe" "Hi" Sample.busy)))
    = messages Sample.board.
Proof.
  destruct (postMessage_user_not_found Sample.env "u-zoe" "Hi" Sample.busy)
    as [Hiff Hsame].
  assert (Habsent : ¬ has_user "u-zoe" (db Sample.busy)) by compute_done.
  split; [by apply Hiff|].
  destruct (Hsame Habsent) as (Hu & Hm & _). by split.
Defined.

(** C6: a [postMessage] call that passes both validations issues
    exactly one store write, the insert of the new message row, and
    one rate-limiter mutation at most; a call that fails the
    user-existence check or the rate-limit check issues no store write
    and no rate-limiter mutation, and leaves the world as it was. *)
Theorem postMessage_side_effects env userId messageBody w :
  let r := postMessage env userId messageBody w in
  let recent := in_window (Date_now env) (stored_timestamps userId w) in
  (count_effect RlWrite (trace r) ≤ 1)%nat ∧
  (count_effect DbWrite (trace r) ≤ 1)%nat ∧
  (has_user userId (db w) ∧ (length recent < limit)%nat →
     count_effect DbWrite (trace r) = 1%nat ∧
     users (db (world r)) = users (db w) ∧
     (fresh_message_id (uuidv4 env) (db w) →
        messages (db (world r)) =
          messages (db w) ++ [new_message env userId messageBody] ∧
        count_effect RlWrite (trace r) = 1%nat) ∧
     (¬ fresh_message_id (uuidv4 env) (db w) →
        world r = w ∧ count_effect RlWrite (trace r) = 0%nat)) ∧
  (¬ has_user userId (db w) ∨ (limit ≤ length recent)%nat →
     count_effect DbWrite (trace r) = 0%nat ∧
     count_effect RlWrite (trace r) = 0%nat ∧
     world r = w).
Proof.
  intros r recent. subst r. rewrite postMessage_eq. cbv zeta.
  change (in_window (Date_now env) (stored_timestamps userId w)) with recent.
  destruct (decide (has_user userId (db w))) as [Hu|Hu].
  - rewrite (select_user_id_by_id_Some _ _ Hu).
    case_decide as Hlim.
    + split_and!; [cbn; lia | cbn; lia | intros [_ ?]; lia | done].
    + destruct (decide (fresh_message_id (uuidv4 env) (db w))) as [Hf|Hf].
      * rewrite insert_message_fresh by done.
        split_and!; [cbn; lia | cbn; lia | | intros [?|?]; [done|lia]].
        intros _. split_and!; done.
      * destruct (insert_message_taken (new_message env userId messageBody)
                    (db w) Hf) as [s ->].
        split_and!; [cbn; lia | cbn; lia | | intros [?|?]; [done|lia]].
        intros _. split_and!; done.
  - pose proof Hu as Hn. apply select_user_id_by_id_None in Hn. rewrite Hn.
    split_and!; [cbn; lia | cbn; lia | intros [? _]; done | done].
Qed.

Lemma postMessage_side_effects_witness :
  count_effect DbWrite
    (trace (postMessage Sample.env "u-ann" "Message 4" Sample.busy)) = 1%nat ∧
  count_effect DbWrite
    (trace (postMessage Sample.env "u-bob" "Spam" Sample.busy)) = 0%nat ∧
  count_effect RlWrite
    (trace (postMessage Sample.env "u-bob" "Spam" Sample.busy)) = 0%nat.
Proof.
  split.
  - destruct (postMessage_side_effects Sample.env "u-ann" "Message 4"
                Sample.busy) as (_ & _ & H & _).
    destruct H as [H _]; [split; [compute_done | vm_compute; lia] | exact H].
  - destruct (postMessage_side_effects Sample.env "u-bob" "Spam" Sample.busy)
      as (_ & _ & _ & H).
    destruct H as (H1 & H2 & _); [right; vm_compute; lia|]. by split.
Defined.

(** ** User creation and the listings *)

(** C5: [createUser] with an email that a user already has fails with
    the message "A user with this email already exists."; no write
    reaches the store and the user count is what it was. *)
Theorem createUser_duplicate_email env name email w :
  email_present email (db w) →
  let r := createUser env name email w in
  result r = Throw (Error "A user with this email already exists.") ∧
  count_effect DbWrite (trace r) = 0%nat ∧
  world r = w ∧
  length (users (db (world r))) = length (users (db w)).
Proof.
  intros He r. subst r. rewrite createUser_eq.
  destruct (select_user_id_by_email_Some _ _ He) as [x ->]. done.
Qed.

Lemma createUser_duplicate_email_witness :
  result (createUser Sample.env "Robert" "bob@example.com" Sample.busy)
    = Throw (Error "A user with this email already exists.") ∧
  length (users (db (world
    (createUser Sample.env "Robert" "bob@example.com" Sample.busy)))) = 2%nat.
Proof.
  destruct (createUser_duplicate_email Sample.env "Robert" "bob@example.com"
              Sample.busy) as (H1 & _ & _ & H2); [compute_done|].
  split; [exact H1 | exact H2].
Defined.

(** C8: [listMessagesForUser] fails with "User not found." when no
    user has the identifier, and otherwise returns the rows of the
    messages table owned by that user, in table order; it changes
    nothing. *)
Theorem listMessagesForUser_spec userId w :
  let r := listMessagesForUser userId w in
  world r = w ∧
  (¬ has_user userId (db w) → result r = Throw (Error "User not found.")) ∧
  (has_user userId (db w) →
     result r = Return (filter (λ m, msg_userId m = userId) (messages (db w)))).
Proof.
  intros r. subst r. rewrite listMessagesForUser_eq. split_and!.
  - by destruct (select_user_id_by_id userId (db w)).
  - intros Hu. apply select_user_id_by_id_None in Hu. by rewrite Hu.
  - intros Hu. rewrite (select_user_id_by_id_Some _ _ Hu).
    by rewrite select_messages_by_userId_eq.
Qed.

Lemma listMessagesForUser_spec_witness :
  result (listMessagesForUser "u-zoe" Sample.busy)
    = Throw (Error "User not found.") ∧
  result (listMessagesForUser "u-ann" Sample.busy)
    = Return [Sample.m1; Sample.m2; Sample.m3].
Proof.
  split.
  - apply (listMessagesForUser_spec "u-zoe" Sample.busy). compute_done.
  - destruct (listMessagesForUser_spec "u-ann" Sample.busy) as (_ & _ & H).
    rewrite H by compute_done. compute_done.
Defined.

Lemma handle_createUser_fresh s w :
  fresh_user_id (signup_id s) (db w) →
  ¬ email_present (signup_email s) (db w) →
  handle (signup_request s) w =
    (Return (RepUser (signup_user s)),
     mkWorld (mkDb (users (db w) ++ [signup_user s]) (messages (db w)))
             (rateLimitStore w),
     [DbRead; DbWrite]).
Proof.
  intros Hid He. unfold handle, signup_request, bind.
  rewrite createUser_eq.
  apply select_user_id_by_email_None in He as Hq. rewrite Hq. cbv zeta.
  fold (signup_user s). rewrite insert_user_fresh; [done|done|done].
Qed.

Lemma serve_signups (l : list Signup) : ∀ w,
  NoDup (map signup_email l) →
  NoDup (map signup_id l) →
  Forall (λ s, ¬ email_present (signup_email s) (db w)) l →
  Forall (λ s, fresh_user_id (signup_id s) (db w)) l →
  fst (serve (map signup_request l) w)
    = map (λ s, Return (RepUser (signup_user s))) l ∧
  users (db (snd (serve (map signup_request l) w)))
    = users (db w) ++ map signup_user l ∧
  messages (db (snd (serve (map signup_request l) w))) = messages (db w) ∧
  rateLimitStore (snd (serve (map signup_request l) w)) = rateLimitStore w.
Proof.
  induction l as [|s l IH]; intros w He Hi Fe Fi.
  - cbn. by rewrite app_nil_r.
  - cbn [map] in He, Hi. apply NoDup_cons in He as [He1 He2].
    apply NoDup_cons in Hi as [Hi1 Hi2].
    apply Forall_cons in Fe as [Fe1 Fe2]. apply Forall_cons in Fi as [Fi1 Fi2].
    cbn [map serve]. rewrite (handle_createUser_fresh s w Fi1 Fe1).
    unfold result, world. cbn [fst snd].
    set (w1 := mkWorld _ _).
    destruct (IH w1 He2 Hi2) as (R & U & Ms & Rl).
    + apply Forall_forall. intros x Hx. rewrite Forall_forall in Fe2.
      unfold email_present, w1. cbn [db users]. rewrite map_app.
      cbn [map]. rewrite elem_of_app, list_elem_of_singleton.
      intros [H|H]; [by apply (Fe2 x Hx)|].
      apply He1. change (user_email (signup_user s)) with (signup_email s) in H.
      rewrite <- H. by apply (list_elem_of_fmap_2 signup_email).
    + apply Forall_forall. intros x Hx. rewrite Forall_forall in Fi2.
      unfold fresh_user_id, w1. cbn [db users]. rewrite map_app.
      cbn [map]. rewrite elem_of_app, list_elem_of_singleton.
      intros [H|H]; [by apply (Fi2 x Hx)|].
      apply Hi1. change (user_id (signup_user s)) with (signup_id s) in H.
      rewrite <- H. by apply (list_elem_of_fmap_2 signup_id).
    + rewrite R, U, Ms, Rl. unfold w1. cbn [db users messages rateLimitStore].
      by rewrite <- app_assoc.
Qed.

(** C7: from an empty users table, [createUser] called for N signups
    with pairwise distinct emails (and the distinct identifiers that
    [uuidv4] hands out) succeeds N times, and [listUsers] then returns
    exactly the N created users, in the order of creation. *)
Theorem listUsers_after_signups (l : list Signup) (w : World) :
  users (db w) = [] →
  NoDup (map signup_email l) →
  NoDup (map signup_id l) →
  let served := serve (map signup_request l) w in
  fst served = map (λ s, Return (RepUser (signup_user s))) l ∧
  result (listUsers (snd served)) = Return (map signup_user l) ∧
  length (map signup_user l) = length l.
Proof.
  intros Hempty He Hi served. subst served.
  destruct (serve_signups l w He Hi) as (R & U & _).
  - apply Forall_forall. intros s _. unfold email_present.
    rewrite Hempty. cbn. apply not_elem_of_nil.
  - apply Forall_forall. intros s _. unfold fresh_user_id.
    rewrite Hempty. cbn. apply not_elem_of_nil.
  - split_and!; [done | | by rewrite length_map].
    unfold listUsers, db_query, result, select_users. cbn [fst].
    by rewrite U, Hempty.
Qed.

Lemma listUsers_after_signups_witness :
  result (listUsers (snd (serve
    (map signup_request
       [SampleSignups.one; SampleSignups.two; SampleSignups.three])
    SampleSignups.empty)))
  = Return (map signup_user
      [SampleSignups.one; SampleSignups.two; SampleSignups.three]).
Proof.
  apply (listUsers_after_signups
           [SampleSignups.one; SampleSignups.two; SampleSignups.three]
           SampleSignups.empty); [reflexivity | compute_done | compute_done].
Defined.

Lemma within_one_hour_spec ts :
  within_one_hour ts ↔ ∀ a b, a ∈ ts → b ∈ ts → a - b < windowDuration.
Proof.
  unfold within_one_hour. rewrite Forall_forall.
  split; intros H a.
  - intros b Ha. specialize (H a Ha). rewrite Forall_forall in H. apply H.
  - intros Ha. apply Forall_forall. intros b. by apply H.
Qed.

Lemma in_window_all now (s : list Z) :
  (∀ a, a ∈ s → now - a < windowDuration) → in_window now s = s.
Proof.
  unfold in_window. induction s as [|x s IH]; intros H; [done|].
  rewrite filter_cons. rewrite decide_True.
  - f_equal. apply IH. intros a Ha. apply H. by right.
  - assert (now - x < windowDuration) by (apply H; left). lia.
Qed.

Lemma handle_postMessage_allowed userId p w :
  has_user userId (db w) →
  fresh_message_id (post_id p) (db w) →
  (length (in_window (post_time p) (stored_timestamps userId w)) < limit)%nat →
  handle (post_request userId p) w =
    (Return (RepMessage (post_message userId p)),
     mkWorld (mkDb (users (db w)) (messages (db w) ++ [post_message userId p]))
             (<[userId := in_window (post_time p) (stored_timestamps userId w)
                          ++ [post_time p]]> (rateLimitStore w)),
     [DbRead; RlRead; DbWrite; RlWrite]).
Proof.
  intros Hu Hf Hlen. unfold handle, post_request, bind.
  rewrite postMessage_eq, (select_user_id_by_id_Some _ _ Hu). cbv zeta.
  fold (post_time p). rewrite decide_False by lia.
  fold (post_message userId p). by rewrite insert_message_fresh.
Qed.

Lemma serve_posts userId (l : list Post) : ∀ w,
  has_user userId (db w) →
  NoDup (map post_id l) →
  Forall (λ p, fresh_message_id (post_id p) (db w)) l →
  (length (stored_timestamps userId w) + length l ≤ limit)%nat →
  within_one_hour (stored_timestamps userId w ++ map post_time l) →
  let served := serve (map (post_request userId) l) w in
  fst served = map (λ p, Return (RepMessage (post_message userId p))) l ∧
  users (db (snd served)) = users (db w) ∧
  messages (db (snd served)) = messages (db w) ++ map (post_message userId) l ∧
  stored_timestamps userId (snd served)
    = stored_timestamps userId w ++ map post_time l.
Proof.
  induction l as [|p l IH]; intros w Hu Hn Hf Hlen Hwin served; subst served.
  - cbn. by rewrite !app_nil_r.
  - cbn [map] in Hn. apply NoDup_cons in Hn as [Hn1 Hn2].
    apply Forall_cons in Hf as [Hf1 Hf2]. cbn [length map] in Hlen, Hwin.
    assert (Hkeep : in_window (post_time p) (stored_timestamps userId w)
                    = stored_timestamps userId w).
    { apply in_window_all. intros a Ha.
      apply (proj1 (within_one_hour_spec _) Hwin); rewrite elem_of_app;
        [right; left | by left]. }
    cbn [map serve].
    rewrite (handle_postMessage_allowed userId p w Hu Hf1)
      by (rewrite Hkeep; unfold limit in *; lia).
    rewrite Hkeep. unfold result, world. cbn [fst snd].
    set (w1 := mkWorld _ _).
    assert (Hs1 : stored_timestamps userId w1
                  = stored_timestamps userId w ++ [post_time p]).
    { unfold stored_timestamps at 1, w1. cbn [rateLimitStore].
      by rewrite lookup_insert_eq. }
    destruct (IH w1) as (R & U & Ms & St).
    + exact Hu.
    + exact Hn2.
    + apply Forall_forall. intros x Hx. rewrite Forall_forall in Hf2.
      unfold fresh_message_id, w1. cbn [db messages]. rewrite map_app.
      cbn [map]. rewrite elem_of_app, list_elem_of_singleton.
      intros [H|H]; [by apply (Hf2 x Hx)|].
      apply Hn1. change (msg_id (post_message userId p)) with (post_id p) in H.
      rewrite <- H. by apply (list_elem_of_fmap_2 post_id).
    + rewrite Hs1, length_app. cbn [length]. lia.
    + rewrite Hs1, <- app_assoc. exact Hwin.
    + rewrite R, U, Ms, St, Hs1. unfold w1. cbn [db users messages].
      by rewrite <- !app_assoc.
Qed.

(** C2: for an existing user without recorded posts, ten [postMessage]
    calls whose instants, together with that of an eleventh call, fall
    within one hour all succeed; the eleventh fails with the message
    "Rate limit exceeded. You can post a maximum of 10 messages per
    hour.", inserts no row, and [listMessagesForUser] afterwards returns
    the user's earlier rows followed by the ten accepted ones. *)
Theorem eleventh_post_rejected userId (posts : list Post) (env11 : Env)
    (body11 : string) (w : World) :
  has_user userId (db w) →
  stored_timestamps userId w = [] →
  length posts = 10%nat →
  NoDup (map post_id posts) →
  Forall (λ p, fresh_message_id (post_id p) (db w)) posts →
  within_one_hour (map post_time posts ++ [Date_now env11]) →
  let served := serve (map (post_request userId) posts) w in
  let r11 := postMessage env11 userId body11 (snd served) in
  fst served = map (λ p, Return (RepMessage (post_message userId p))) posts ∧
  result r11 = Throw (Error
    "Rate limit exceeded. You can post a maximum of 10 messages per hour.") ∧
  messages (db (world r11)) = messages (db (snd served)) ∧
  result (listMessagesForUser userId (world r11))
    = Return (filter (λ m, msg_userId m = userId) (messages (db w))
              ++ map (post_message userId) posts).
Proof.
  intros Hu Hs Hlen Hn Hf Hwin served r11.
  assert (Hwin' := proj1 (within_one_hour_spec _) Hwin).
  destruct (serve_posts userId posts w Hu Hn Hf) as (R & U & Ms & St).
  { rewrite Hs, Hlen. unfold limit. cbn. lia. }
  { rewrite Hs. cbn [app]. apply within_one_hour_spec.
    intros a b Ha Hb. apply Hwin'; rewrite elem_of_app; by left. }
  fold served in R, U, Ms, St. rewrite Hs in St. cbn [app] in St.
  assert (Hu' : has_user userId (db (snd served))).
  { unfold has_user. by rewrite U. }
  assert (Hr11 : r11 = (Throw (Error msg_rate_limit), snd served,
                        [DbRead; RlRead])).
  { subst r11. rewrite postMessage_eq, (select_user_id_by_id_Some _ _ Hu').
    cbv zeta. rewrite St, in_window_all.
    - rewrite decide_True; [done|]. rewrite length_map, Hlen. done.
    - intros a Ha. apply Hwin'; rewrite elem_of_app;
        [right; left | by left]. }
  rewrite Hr11. unfold result, world. cbn [fst snd].
  split_and!; try done.
  rewrite listMessagesForUser_eq, (select_user_id_by_id_Some _ _ Hu').
  cbn [fst]. rewrite select_messages_by_userId_eq, Ms, filter_app.
  do 2 f_equal. clear. induction posts as [|p l IH]; [done|].
  cbn [map]. rewrite filter_cons, decide_True by done. by rewrite IH.
Qed.

Lemma eleventh_post_rejected_witness :
  result (postMessage SamplePosts.late "u-bob" "Spam"
            (snd (serve (map (post_request "u-bob") SamplePosts.ten)
                        SamplePosts.fresh_start)))
  = Throw (Error
      "Rate limit exceeded. You can post a maximum of 10 messages per hour.").
Proof.
  apply (eleventh_post_rejected "u-bob" SamplePosts.ten SamplePosts.late
           "Spam" SamplePosts.fresh_start); compute_done.
Defined.

(** The window is open at its far end: an eleventh post exactly one
    hour after the first of ten is accepted, the first timestamp having
    left the window. *)
Example eleventh_post_one_hour_later :
  result (postMessage SamplePosts.hour_after_first "u-bob" "Spam"
            (snd (serve (map (post_request "u-bob") SamplePosts.ten)
                        SamplePosts.fresh_start)))
  = Return (new_message SamplePosts.hour_after_first "u-bob" "Spam").
Proof. vm_compute. reflexivity. Qed.

(** ** The bound on the stored sequences *)

Lemma postMessage_bounded env userId messageBody w :
  rate_limit_bounded w →
  rate_limit_bounded (world (postMessage env userId messageBody w)).
Proof.
  intros Hb. rewrite postMessage_eq.
  destruct (select_user_id_by_id userId (db w)); [|done].
  cbv zeta. case_decide as Hlim; [done|].
  destruct (insert_message _ (db w)); [done|].
  unfold world. cbn [fst snd]. intros k l. cbn [rateLimitStore].
  rewrite lookup_insert. case_decide as Hk.
  - intros [= <-]. rewrite length_app. cbn [length]. lia.
  - apply Hb.
Qed.

Lemma createUser_rateLimitStore env name email w :
  rateLimitStore (world (createUser env name email w)) = rateLimitStore w.
Proof.
  rewrite createUser_eq.
  destruct (select_user_id_by_email email (db w)); [done|].
  cbv zeta. by destruct (insert_user _ (db w)).
Qed.

Lemma handle_bounded q w :
  rate_limit_bounded w → rate_limit_bounded (world (handle q w)).
Proof.
  intros Hb. destruct q as [| |u|env name email|env u body];
    unfold handle, bind.
  - done.
  - done.
  - rewrite listMessagesForUser_eq.
    by destruct (select_user_id_by_id u (db w)).
  - pose proof (createUser_rateLimitStore env name email w) as H.
    destruct (createUser env name email w) as [[[a|e] w1] t];
      unfold world in *; cbn [fst snd ret] in *;
      intros k l; rewrite H; apply Hb.
  - pose proof (postMessage_bounded env u body w Hb) as H.
    by destruct (postMessage env u body w) as [[[a|e] w1] t].
Qed.

Lemma serve_bounded qs : ∀ w,
  rate_limit_bounded w → rate_limit_bounded (snd (serve qs w)).
Proof.
  induction qs as [|q qs IH]; intros w Hb; [done|].
  cbn [serve snd]. apply IH. by apply handle_bounded.
Qed.

(** Whatever requests a process has served since it started, no stored
    sequence is longer than the limit. *)
Corollary reachable_bounded (d : Db) (qs : list request) :
  rate_limit_bounded (snd (serve qs (start d))).
Proof. apply serve_bounded. intros k l. unfold start. cbn. by rewrite lookup_empty. Qed.

(** C9: [postMessage] keeps every stored timestamp sequence at length
    10 at most: a call that returns has stored, under its user, the
    window-filtered sequence, which had fewer than 10 elements, followed
    by the new timestamp; no call touches another user's sequence; so
    the bound, true of all users before the call, is true of all users
    after it. *)
Theorem postMessage_keeps_bound env userId messageBody w :
  let r := postMessage env userId messageBody w in
  let recent := in_window (Date_now env) (stored_timestamps userId w) in
  (∀ m, result r = Return m →
     (length recent < 10)%nat ∧
     stored_timestamps userId (world r) = recent ++ [Date_now env] ∧
     (length (stored_timestamps userId (world r)) ≤ 10)%nat) ∧
  (∀ other, other ≠ userId →
     rateLimitStore (world r) !! other = rateLimitStore w !! other) ∧
  ((∀ u l, rateLimitStore w !! u = Some l → (length l ≤ 10)%nat) →
   (∀ u l, rateLimitStore (world r) !! u = Some l → (length l ≤ 10)%nat)).
Proof.
  intros r recent. split_and!.
  - subst r. rewrite postMessage_eq. intros m.
    destruct (select_user_id_by_id userId (db w)); [|done].
    cbv zeta. fold recent. unfold limit. case_decide as Hlim; [done|].
    destruct (insert_message _ (db w)); [done|].
    intros _. unfold world, stored_timestamps at 1 2. cbn [fst snd rateLimitStore].
    rewrite lookup_insert_eq.
    change (default [] (Some (recent ++ [Date_now env])))
      with (recent ++ [Date_now env]).
    rewrite length_app. cbn [length]. split_and!; [lia | done | lia].
  - subst r. rewrite postMessage_eq. intros other Hne.
    destruct (select_user_id_by_id userId (db w)); [|done].
    cbv zeta. case_decide; [done|].
    destruct (insert_message _ (db w)); [done|].
    unfold world. cbn [fst snd rateLimitStore]. by rewrite lookup_insert_ne.
  - apply (postMessage_bounded env userId messageBody w).
Qed.

Lemma postMessage_keeps_bound_witness :
  stored_timestamps "u-ann"
    (world (postMessage Sample.env "u-ann" "Message 4" Sample.busy))
    = [500; 4500; 9500; 20000] ∧
  (∀ u l,
     rateLimitStore (world (postMessage Sample.env "u-ann" "Message 4"
                              Sample.busy)) !! u = Some l →
     (length l ≤ 10)%nat).
Proof.
  destruct (postMessage_keeps_bound Sample.env "u-ann" "Message 4" Sample.busy)
    as (Hret & _ & Hkeep).
  split.
  - destruct (Hret (new_message Sample.env "u-ann" "Message 4"))
      as (_ & H & _); [compute_done|].
    rewrite H. compute_done.
  - apply Hkeep. intros u l.
    change (rateLimitStore Sample.busy) with
      (<["u-bob" := [1000; 2000; 3000; 4000; 5000;
                     6000; 7000; 8000; 9000; 10000]]>
         (<["u-ann" := [500; 4500; 9500]]> (∅ : gmap string (list Z)))).
    rewrite !lookup_insert, lookup_empty.
    repeat case_decide; intros [= <-]; cbn; lia.
Defined.

Lemma insert_by_creationDate_perm m l : insert_by_creationDate m l ≡ₚ m :: l.
Proof.
  induction l as [|x l IH]; [done|]. cbn.
  destruct (String.leb _ _); [done|].
  rewrite IH. apply Permutation_swap.
Qed.

Lemma order_by_creationDate_perm l : order_by_creationDate l ≡ₚ l.
Proof.
  induction l as [|x l IH]; [done|]. cbn.
  by rewrite insert_by_creationDate_perm, IH.
Qed.

Lemma insert_by_creationDate_hd m x l :
  date_le x m → HdRel date_le x l → HdRel date_le x (insert_by_creationDate m l).
Proof.
  intros Hxm Hhd. destruct l as [|y l]; cbn.
  - by constructor.
  - destruct (String.leb _ _); constructor; [done|].
    by inversion Hhd.
Qed.

Lemma insert_by_creationDate_sorted m l :
  Sorted date_le l → Sorted date_le (insert_by_creationDate m l).
Proof.
  induction 1 as [|x l Hs IH Hhd]; cbn.
  - by repeat constructor.
  - destruct (String.leb (msg_creationDate m) (msg_creationDate x)) eqn:E.
    + constructor; [by constructor|]. by constructor.
    + constructor; [done|]. apply insert_by_creationDate_hd; [|done].
      unfold date_le.
      destruct (String.leb_total (msg_creationDate x) (msg_creationDate m));
        congruence.
Qed.

Lemma order_by_creationDate_sorted l : Sorted date_le (order_by_creationDate l).
Proof.
  induction l as [|x l IH]; cbn; [constructor|].
  by apply insert_by_creationDate_sorted.
Qed.

Lemma nth_error_lookup_nat {A} (l : list A) (i : nat) : nth_error l i = l !! i.
Proof. revert i. induction l as [|x l IH]; intros [|i]; cbn; auto. Qed.

Lemma array_get_nat {A} (l : list A) (i : nat) : array_get l (Z.of_nat i) = l !! i.
Proof.
  unfold array_get. destruct (Z.ltb_spec (Z.of_nat i) 0); [lia|].
  by rewrite Nat2Z.id, nth_error_lookup_nat.
Qed.

Lemma position_of_lt id l p : position_of id l = Some p → (p < length l)%nat.
Proof.
  revert p. induction l as [|x l IH]; intros p; cbn; [done|].
  case_decide.
  - intros [= <-]. lia.
  - destruct (position_of id l) as [q|]; [|done].
    intros [= <-]. specialize (IH q eq_refl). lia.
Qed.

(** [findIndex] locates the first position, as an integer, and answers
    [-1] when there is none. *)
Lemma findIndex_position id l :
  findIndex (fun msg => String.eqb (msg_id msg) id) l =
  match position_of id l with
  | Some p => Z.of_nat p
  | None => -1
  end.
Proof.
  induction l as [|x l IH]; [done|]. cbn [findIndex position_of].
  destruct (String.eqb_spec (msg_id x) id); case_decide; try done.
  rewrite IH. destruct (position_of id l) as [q|]; cbn.
  - destruct (Z.ltb_spec (Z.of_nat q) 0); lia.
  - done.
Qed.

Lemma position_of_first id l p :
  position_of id l = Some p ↔
  (∃ m, l !! p = Some m ∧ msg_id m = id) ∧
  (∀ j m, (j < p)%nat → l !! j = Some m → msg_id m ≠ id).
Proof.
  revert p. induction l as [|x l IH]; intros p; cbn [position_of].
  - split; [done|]. by intros [(m & H & _) _].
  - case_decide as E.
    + split.
      * intros [= <-]. split; [by exists x|]. intros; lia.
      * intros [_ H]. destruct p as [|p]; [done|].
        exfalso. apply (H 0%nat x); [lia|done|done].
    + split.
      * destruct (position_of id l) as [q|] eqn:Eq; [|done].
        intros [= <-]. destruct (proj1 (IH q) eq_refl) as [Hm Hb].
        split; [done|]. intros [|j] m Hj; cbn.
        -- by intros [= <-].
        -- apply Hb. lia.
      * intros [(m & Hm & Hid) Hb]. destruct p as [|p].
        -- cbn in Hm. congruence.
        -- cbn in Hm. rewrite (proj2 (IH p)); [done|].
           split; [by exists m|]. intros j m' Hj. apply (Hb (S j)). lia.
Qed.

Lemma position_of_None id l :
  position_of id l = None ↔ Forall (λ x, msg_id x ≠ id) l.
Proof.
  induction l as [|x l IH]; cbn [position_of].
  - split; [constructor | done].
  - rewrite Forall_cons. case_decide.
    + split; [done | tauto].
    + rewrite <- IH. destruct (position_of id l); cbn; split; try done.
      by intros [_ ?].
Qed.

Lemma position_of_elem m l : m ∈ l → is_Some (position_of (msg_id m) l).
Proof.
  intros Hin. destruct (position_of (msg_id m) l) eqn:E; [by eexists|].
  apply position_of_None in E. rewrite Forall_forall in E.
  by destruct (E m Hin).
Qed.

Lemma previousPostedMessage_eq message w :
  previousPostedMessage message w =
  let userMessages :=
    select_messages_by_userId_ordered (msg_userId message) (db w) in
  (Return match position_of (msg_id message) userMessages with
          | Some (S p) => userMessages !! p
          | _ => None
          end, w, [DbRead]).
Proof.
  unfold previousPostedMessage, bind, db_query, ret. cbv zeta.
  rewrite findIndex_position.
  destruct (position_of _ _) as [[|p]|]; cbn [app]; try done.
  replace (Z.of_nat (S p) - 1) with (Z.of_nat p) by lia.
  rewrite array_get_nat.
  by destruct (Z.ltb_spec 0 (Z.of_nat (S p))); [|lia].
Qed.

Lemma nextPostedMessage_eq message w :
  nextPostedMessage message w =
  let userMessages :=
    select_messages_by_userId_ordered (msg_userId message) (db w) in
  (Return match position_of (msg_id message) userMessages with
          | Some p => userMessages !! S p
          | None => head userMessages
          end, w, [DbRead]).
Proof.
  unfold nextPostedMessage, bind, db_query, ret. cbv zeta.
  rewrite findIndex_position.
  set (l := select_messages_by_userId_ordered _ _).
  destruct (position_of _ l) as [p|] eqn:E; cbn [app].
  - apply position_of_lt in E.
    replace (Z.of_nat p + 1) with (Z.of_nat (S p)) by lia.
    rewrite array_get_nat.
    destruct (Z.ltb_spec (Z.of_nat p) (Z.of_nat (length l) - 1)); [done|].
    rewrite (lookup_ge_None_2 l (S p)); [done|lia].
  - destruct l as [|x l']; [done|].
    destruct (Z.ltb_spec (-1) (Z.of_nat (length (x :: l')) - 1)); [done|].
    cbn [length] in *. lia.
Qed.

(** C4: the resolvers work on the list of the owning user's messages
    in ascending order of creation date, a sorted rearrangement of that
    user's rows, in which every stored message has a position; with
    [pos] the first position that carries the message's identifier,
    [previousPostedMessage] is the element at [pos - 1] if [pos > 0] and
    absent otherwise, [nextPostedMessage] is the element at [pos + 1] if
    [pos] is not the last position and absent otherwise; both are absent
    for the only message of a user. *)
Theorem previous_next_posted_message message w (pos : nat) :
  let userMessages :=
    select_messages_by_userId_ordered (msg_userId message) (db w) in
  (userMessages ≡ₚ
     filter (λ m, msg_userId m = msg_userId message) (messages (db w)) ∧
   Sorted date_le userMessages) ∧
  (message ∈ messages (db w) →
     is_Some (position_of (msg_id message) userMessages)) ∧
  (position_of (msg_id message) userMessages = Some pos →
     result (previousPostedMessage message w)
       = Return (if decide (0 < pos)%nat
                 then userMessages !! (pos - 1)%nat else None) ∧
     result (nextPostedMessage message w)
       = Return (if decide (pos < length userMessages - 1)%nat
                 then userMessages !! (pos + 1)%nat else None) ∧
     (length userMessages = 1%nat →
        result (previousPostedMessage message w) = Return None ∧
        result (nextPostedMessage message w) = Return None)).
Proof.
  intros userMessages. split_and!.
  - unfold userMessages, select_messages_by_userId_ordered.
    by rewrite order_by_creationDate_perm, select_messages_by_userId_eq.
  - apply order_by_creationDate_sorted.
  - intros Hin. apply position_of_elem.
    unfold userMessages, select_messages_by_userId_ordered.
    rewrite order_by_creationDate_perm, select_messages_by_userId_eq.
    by apply list_elem_of_filter.
  - intros Hpos. rewrite previousPostedMessage_eq, nextPostedMessage_eq.
    cbv zeta. fold userMessages. rewrite Hpos. unfold result. cbn [fst].
    pose proof (position_of_lt _ _ _ Hpos) as Hlt.
    assert (Hprev : match pos with
                    | 0%nat => None
                    | S p => userMessages !! p
                    end = if decide (0 < pos)%nat
                          then userMessages !! (pos - 1)%nat else None).
    { destruct pos as [|p]; [done|]. rewrite decide_True by lia.
      f_equal. lia. }
    assert (Hnext : userMessages !! S pos
                    = if decide (pos < length userMessages - 1)%nat
                      then userMessages !! (pos + 1)%nat else None).
    { destruct (decide (pos < length userMessages - 1)%nat).
      - f_equal. lia.
      - apply lookup_ge_None_2. lia. }
    rewrite Hprev, Hnext. split_and!; [done|done|].
    intros Hone. rewrite !decide_False by lia. done.
Qed.

Lemma previous_next_posted_message_witness :
  result (previousPostedMessage Sample.m2 Sample.busy)
    = Return (Some Sample.m1) ∧
  result (nextPostedMessage Sample.m2 Sample.busy)
    = Return (Some Sample.m3).
Proof.
  destruct (previous_next_posted_message Sample.m2 Sample.busy 1)
    as (_ & _ & H).
  destruct H as (Hp & Hn & _); [compute_done|].
  rewrite Hp, Hn. split; compute_done.
Defined.

(** C10: for a message whose identifier none of its user's messages
    carries, that list being non-empty, [nextPostedMessage] returns the
    first message of the list and [previousPostedMessage] returns
    absent. *)
Theorem unknown_identifier_next_previous message w :
  let userMessages :=
    select_messages_by_userId_ordered (msg_userId message) (db w) in
  Forall (λ m, msg_id m ≠ msg_id message) userMessages →
  userMessages ≠ [] →
  ∃ first,
    userMessages !! 0%nat = Some first ∧
    result (nextPostedMessage message w) = Return (Some first) ∧
    result (previousPostedMessage message w) = Return None.
Proof.
  intros userMessages Hnone Hne.
  apply position_of_None in Hnone.
  rewrite previousPostedMessage_eq, nextPostedMessage_eq. cbv zeta.
  fold userMessages. rewrite Hnone.
  destruct userMessages as [|x l]; [done|]. by exists x.
Qed.

Lemma unknown_identifier_next_previous_witness :
  ∃ first,
    select_messages_by_userId_ordered "u-ann" Sample.board !! 0%nat
      = Some first ∧
    result (nextPostedMessage SampleUnknown.ghost Sample.busy)
      = Return (Some first) ∧
    result (previousPostedMessage SampleUnknown.ghost Sample.busy)
      = Return None.
Proof.
  apply (unknown_identifier_next_previous SampleUnknown.ghost Sample.busy);
    compute_done.
Defined.

Example unknown_identifier_next_is_first :
  result (nextPostedMessage SampleUnknown.ghost Sample.busy)
    = Return (Some Sample.m1).
Proof. vm_compute. reflexivity. Qed.

(** ** Outcomes of the two mutations *)

Lemma select_user_id_by_id_is_Some userId d :
  is_Some (select_user_id_by_id userId d) ↔ has_user userId d.
Proof.
  split.
  - intros [x Hx]. destruct (decide (has_user userId d)) as [|Hn]; [done|].
    apply select_user_id_by_id_None in Hn. congruence.
  - intros H. rewrite select_user_id_by_id_Some by done. by eexists.
Qed.

Lemma insert_user_taken u d :
  ¬ (fresh_user_id (user_id u) d ∧ ¬ email_present (user_email u) d) →
  ∃ s, insert_user u d = inl (SqliteConstraint s).
Proof.
  unfold insert_user, fresh_user_id, email_present. intros H.
  destruct (existsb _ _) eqn:E1; [by eexists|].
  destruct (existsb (fun x => String.eqb (user_email x) _) _) eqn:E2;
    [by eexists|].
  apply existsb_key_false in E1, E2. destruct H. by split.
Qed.

(** The three ways [postMessage] ends after the user was found. *)
Lemma postMessage_outcome env userId messageBody w :
  let r := postMessage env userId messageBody w in
  let recent := in_window (Date_now env) (stored_timestamps userId w) in
  let m := new_message env userId messageBody in
  (¬ has_user userId (db w) ∧
   r = (Throw (Error msg_user_not_found_post), w, [DbRead])) ∨
  (has_user userId (db w) ∧ (limit ≤ length recent)%nat ∧
   r = (Throw (Error msg_rate_limit), w, [DbRead; RlRead])) ∨
  (has_user userId (db w) ∧ (length recent < limit)%nat ∧
   ¬ fresh_message_id (uuidv4 env) (db w) ∧
   ∃ s, r = (Throw (SqliteConstraint s), w, [DbRead; RlRead; DbWrite])) ∨
  (has_user userId (db w) ∧ (length recent < limit)%nat ∧
   fresh_message_id (uuidv4 env) (db w) ∧
   r = (Return m,
        mkWorld (mkDb (users (db w)) (messages (db w) ++ [m]))
                (<[userId := recent ++ [Date_now env]]> (rateLimitStore w)),
        [DbRead; RlRead; DbWrite; RlWrite])).
Proof.
  intros r recent m. subst r. rewrite postMessage_eq.
  destruct (decide (has_user userId (db w))) as [Hu|Hu].
  - rewrite (select_user_id_by_id_Some _ _ Hu). cbv zeta. fold recent m.
    case_decide as Hlim; [right; left; done|].
    destruct (decide (fresh_message_id (uuidv4 env) (db w))) as [Hf|Hf].
    + rewrite insert_message_fresh by done.
      do 3 right. split_and!; [done | lia | done | done].
    + destruct (insert_message_taken m (db w) Hf) as [s ->].
      right; right; left. split_and!; [done | lia | done | by exists s].
  - apply select_user_id_by_id_None in Hu as Hq. rewrite Hq. by left.
Qed.

(** The three ways [createUser] ends. *)
Lemma createUser_outcome env name email w :
  let r := createUser env name email w in
  let u := new_user env name email in
  (email_present email (db w) ∧
   r = (Throw (Error msg_duplicate_email), w, [DbRead])) ∨
  (¬ email_present email (db w) ∧ ¬ fresh_user_id (uuidv4 env) (db w) ∧
   ∃ s, r = (Throw (SqliteConstraint s), w, [DbRead; DbWrite])) ∨
  (¬ email_present email (db w) ∧ fresh_user_id (uuidv4 env) (db w) ∧
   r = (Return u,
        mkWorld (mkDb (users (db w) ++ [u]) (messages (db w)))
                (rateLimitStore w),
        [DbRead; DbWrite])).
Proof.
  intros r u. subst r. rewrite createUser_eq.
  destruct (decide (email_present email (db w))) as [He|He].
  - destruct (select_user_id_by_email_Some _ _ He) as [x ->]. by left.
  - apply select_user_id_by_email_None in He as Hq. rewrite Hq. cbv zeta.
    fold u.
    destruct (decide (fresh_user_id (uuidv4 env) (db w))) as [Hf|Hf].
    + rewrite insert_user_fresh by done. right; right. done.
    + destruct (insert_user_taken u (db w)) as [s ->]; [tauto|].
      right; left. split_and!; [done | done | by exists s].
Qed.



(** X2: [postMessage] returns a message exactly when the user exists,
    fewer than ten stored timestamps lie in the window and the new
    identifier is not yet a message identifier; the message returned
    carries the identifier and date handed in, the given user and the
    given body. *)
Theorem postMessage_returns_iff env userId messageBody w m :
  result (postMessage env userId messageBody w) = Return m ↔
  has_user userId (db w) ∧
  (length (in_window (Date_now env) (stored_timestamps userId w)) < 10)%nat ∧
  fresh_message_id (uuidv4 env) (db w) ∧
  m = mkMessage (uuidv4 env) userId messageBody (toISOString env).
Proof.
  destruct (postMessage_outcome env userId messageBody w)
    as [(Hu & Hr)|[(Hu & Hl & Hr)|[(Hu & Hl & Hf & s & Hr)|(Hu & Hl & Hf & Hr)]]];
    rewrite Hr; unfold result, limit in *; cbn [fst]; split.
  - done.
  - intros (? & _); done.
  - done.
  - intros (_ & ? & _); lia.
  - done.
  - intros (_ & _ & ? & _); done.
  - intros [= <-]. done.
  - intros (_ & _ & _ & ->). done.
Qed.

(** X3: [createUser] returns a user exactly when no user has the email
    and the new identifier is not yet a user identifier; the user
    returned echoes the name and the email.  With the email free and
    the identifier taken it is the store that rejects the insert. *)
Theorem createUser_returns_iff env name email w u :
  (result (createUser env name email w) = Return u ↔
   ¬ email_present email (db w) ∧ fresh_user_id (uuidv4 env) (db w) ∧
   u = mkUser (uuidv4 env) name email (toISOString env)) ∧
  (¬ email_present email (db w) → ¬ fresh_user_id (uuidv4 env) (db w) →
   ∃ s, result (createUser env name email w) = Throw (SqliteConstraint s)).
Proof.
  destruct (createUser_outcome env name email w)
    as [(He & Hr)|[(He & Hf & s & Hr)|(He & Hf & Hr)]];
    rewrite Hr; unfold result; cbn [fst]; (split; [split|]).
  - done.
  - intros (? & _); done.
  - done.
  - done.
  - intros (_ & ? & _); done.
  - intros _ _. by exists s.
  - intros [= <-]. done.
  - intros (_ & _ & ->). done.
  - done.
Qed.

Lemma createUser_returns_iff_witness :
  ∃ s, result (createUser (mkEnv "u-bob" 1 "2024-05-02T00:00:00.000Z")
                 "Cyd" "cyd@example.com" Sample.busy)
       = Throw (SqliteConstraint s).
Proof.
  apply (createUser_returns_iff (mkEnv "u-bob" 1 "2024-05-02T00:00:00.000Z")
           "Cyd" "cyd@example.com" Sample.busy Sample.ann); compute_done.
Defined.



Lemma postMessage_returns_iff_witness :
  result (postMessage Sample.env "u-ann" "Message 4" Sample.busy)
    = Return (mkMessage "m-4" "u-ann" "Message 4" "2024-05-01T10:20:00.000Z").
Proof.
  apply (postMessage_returns_iff Sample.env "u-ann" "Message 4" Sample.busy).
  split_and!; [compute_done | vm_compute; lia | compute_done | reflexivity].
Defined.

(** ** Round trips *)

Lemma find_key_app_fresh {A} (key : A → string) (l : list A) (x : A) :
  key x ∉ map key l →
  List.find (fun y => String.eqb (key y) (key x)) (l ++ [x]) = Some x.
Proof.
  intros Hf. induction l as [|y l IH]; cbn.
  - by rewrite String.eqb_refl.
  - cbn in Hf. apply not_elem_of_cons in Hf as [Hne Hf].
    destruct (String.eqb_spec (key y) (key x)); [congruence|]. by apply IH.
Qed.

Lemma has_user_app userId d u ms :
  has_user userId d → has_user userId (mkDb (users d ++ [u]) ms).
Proof.
  unfold has_user. cbn [users]. rewrite map_app, elem_of_app. by left.
Qed.

(** X5: a user that [createUser] returned can be looked up afterwards:
    the identifier and the email are present, [Message.user] resolves a
    message of that owner to exactly the returned user, [listUsers]
    lists the former users followed by it, and a second [createUser]
    with the same email, whatever the name and the identifier, fails
    with the duplicate-email message and changes nothing. *)
Theorem createUser_then_lookup env name email w u :
  result (createUser env name email w) = Return u →
  let w' := world (createUser env name email w) in
  has_user (user_id u) (db w') ∧
  (∀ message, msg_userId message = user_id u →
     result (messageUser message w') = Return (Some u)) ∧
  result (listUsers w') = Return (users (db w) ++ [u]) ∧
  (∀ env2 name2,
     result (createUser env2 name2 email w')
       = Throw (Error "A user with this email already exists.") ∧
     world (createUser env2 name2 email w') = w').
Proof.
  intros H w'. subst w'.
  destruct (createUser_outcome env name email w)
    as [(_ & Hr)|[(_ & _ & s & Hr)|(He & Hf & Hr)]];
    rewrite Hr in H |- *; try done.
  unfold result, world in *. cbn [fst snd] in *. injection H as <-.
  set (u := new_user env name email).
  assert (Hfind : select_user_by_id (user_id u)
                    (mkDb (users (db w) ++ [u]) (messages (db w))) = Some u).
  { unfold select_user_by_id. cbn [users]. by apply find_key_app_fresh. }
  split_and!.
  - unfold has_user. cbn [db users]. rewrite map_app, elem_of_app.
    right. cbn. left.
  - intros message Hm. unfold messageUser, db_query. cbn [fst db].
    by rewrite Hm, Hfind.
  - done.
  - intros env2 name2.
    assert (Hp : email_present email
                   (mkDb (users (db w) ++ [u]) (messages (db w)))).
    { unfold email_present. cbn [users]. rewrite map_app, elem_of_app.
      right. cbn. left. }
    rewrite createUser_eq. cbn [db].
    destruct (select_user_id_by_email_Some _ _ Hp) as [x ->]. done.
Qed.

Lemma createUser_then_lookup_witness :
  result (listUsers (world (createUser (signup_env SampleMore.cyd) "Cyd"
                              "cyd@example.com" Sample.busy)))
  = Return [Sample.ann; Sample.bob; signup_user SampleMore.cyd].
Proof.
  apply (createUser_then_lookup (signup_env SampleMore.cyd) "Cyd"
           "cyd@example.com" Sample.busy (signup_user SampleMore.cyd)).
  vm_compute. reflexivity.
Defined.

(** X6: a message that [postMessage] returned is listed afterwards:
    [listMessagesForUser] of its owner returns the rows it returned
    before followed by the new message, [numberOfPosts] of the owner
    has grown by one and that of every other user is what it was, and
    [Message.user] of the new message is a user with the owner's
    identifier, not null. *)
Theorem postMessage_then_listed env userId messageBody w m :
  result (postMessage env userId messageBody w) = Return m →
  let w' := world (postMessage env userId messageBody w) in
  result (listMessagesForUser userId w')
    = Return (filter (λ x, msg_userId x = userId) (messages (db w)) ++ [m]) ∧
  (∀ user count,
     result (numberOfPosts user w) = Return count →
     result (numberOfPosts user w')
       = Return (if decide (user_id user = userId) then count + 1 else count)) ∧
  (∃ owner, result (messageUser m w') = Return (Some owner) ∧
            user_id owner = userId).
Proof.
  intros H w'. subst w'.
  destruct (postMessage_outcome env userId messageBody w)
    as [(_ & Hr)|[(_ & _ & Hr)|[(_ & _ & _ & s & Hr)|(Hu & _ & _ & Hr)]]];
    rewrite Hr in H |- *; try done.
  unfold result, world in *. cbn [fst snd] in *. injection H as <-.
  set (m := new_message env userId messageBody).
  split_and!.
  - rewrite listMessagesForUser_eq. cbn [db].
    rewrite (select_user_id_by_id_Some userId (mkDb _ _)) by exact Hu.
    cbn [fst]. rewrite select_messages_by_userId_eq. cbn [messages].
    rewrite filter_app, filter_cons, decide_True by done. done.
  - intros user count. unfold numberOfPosts, db_query. cbn [fst db].
    unfold count_messages_by_userId.
    rewrite !select_messages_by_userId_eq. cbn [messages].
    intros [= <-]. rewrite filter_app, filter_cons, length_app.
    f_equal. change (msg_userId m) with userId.
    destruct (decide (user_id user = userId)) as [->|Hne].
    + rewrite decide_True by done. cbn [length filter]. cbn. lia.
    + rewrite decide_False by congruence. cbn. lia.
  - unfold messageUser, db_query, select_user_by_id. cbn [fst db users].
    change (msg_userId m) with userId.
    destruct (find_key_Some user_id userId (users (db w)) Hu)
      as (x & Hx & Hid & _).
    exists x. by rewrite Hx.
Qed.

Lemma postMessage_then_listed_witness :
  result (listMessagesForUser "u-ann"
            (world (postMessage Sample.env "u-ann" "Message 4" Sample.busy)))
  = Return [Sample.m1; Sample.m2; Sample.m3;
            new_message Sample.env "u-ann" "Message 4"].
Proof.
  destruct (postMessage_then_listed Sample.env "u-ann" "Message 4" Sample.busy
              (new_message Sample.env "u-ann" "Message 4")) as (H & _).
  - vm_compute. reflexivity.
  - rewrite H. compute_done.
Defined.

(** X7: [numberOfPosts] does not look the user up: it returns the number
    of rows that [listMessagesForUser] returns for an existing user, and
    0 for a user record without rows, existing or not. *)
Theorem numberOfPosts_counts_listing user w :
  (∀ l, result (listMessagesForUser (user_id user) w) = Return l →
        result (numberOfPosts user w) = Return (Z.of_nat (length l))) ∧
  (Forall (λ m, msg_userId m ≠ user_id user) (messages (db w)) →
   result (numberOfPosts user w) = Return 0) ∧
  world (numberOfPosts user w) = w.
Proof.
  split_and!; [| |done].
  - intros l. rewrite listMessagesForUser_eq.
    destruct (select_user_id_by_id _ _); [|done].
    unfold result. cbn [fst]. by intros [= <-].
  - intros Hnone. unfold numberOfPosts, db_query, result. cbn [fst].
    unfold count_messages_by_userId. rewrite select_messages_by_userId_eq.
    do 2 f_equal. induction Hnone as [|x l Hx _ IH]; [done|].
    by rewrite filter_cons, decide_False.
Qed.

Lemma numberOfPosts_counts_listing_witness :
  result (numberOfPosts Sample.ann Sample.busy) = Return 3 ∧
  result (numberOfPosts (signup_user SampleMore.cyd) Sample.busy) = Return 0.
Proof.
  split.
  - destruct (numberOfPosts_counts_listing Sample.ann Sample.busy) as (H & _).
    apply (H [Sample.m1; Sample.m2; Sample.m3]). vm_compute. reflexivity.
  - apply (numberOfPosts_counts_listing (signup_user SampleMore.cyd)
             Sample.busy). compute_done.
Defined.

(** ** What requests do to the database *)

Lemma createUser_db_step env name email w :
  db_step (db w) (db (world (createUser env name email w))).
Proof.
  destruct (createUser_outcome env name email w)
    as [(_ & Hr)|[(_ & _ & s & Hr)|(He & Hf & Hr)]]; rewrite Hr;
    unfold world; cbn [fst snd db]; try apply db_step_same.
  by apply (db_step_user _ (new_user env name email)).
Qed.

Lemma postMessage_db_step env userId messageBody w :
  db_step (db w) (db (world (postMessage env userId messageBody w))).
Proof.
  destruct (postMessage_outcome env userId messageBody w)
    as [(_ & Hr)|[(_ & _ & Hr)|[(_ & _ & _ & s & Hr)|(Hu & _ & Hf & Hr)]]];
    rewrite Hr; unfold world; cbn [fst snd db]; try apply db_step_same.
  by apply (db_step_message _ (new_message env userId messageBody)).
Qed.

Lemma bind_ret_world {A B} (c : M A) (f : A → B) w :
  world ((let* x := c in ret (f x)) w) = world (c w).
Proof. unfold bind, ret, world. by destruct (c w) as [[[a|e] w1] t]. Qed.

Lemma handle_db_step q w : db_step (db w) (db (world (handle q w))).
Proof.
  destruct q as [| |u|env name email|env u body]; unfold handle;
    rewrite bind_ret_world.
  - constructor.
  - constructor.
  - rewrite listMessagesForUser_eq.
    destruct (select_user_id_by_id u (db w)); constructor.
  - apply createUser_db_step.
  - apply postMessage_db_step.
Qed.

Lemma serve_db_invariant (P : Db → Prop) :
  (∀ d d', db_step d d' → P d → P d') →
  ∀ qs w, P (db w) → P (db (snd (serve qs w))).
Proof.
  intros Hstep. induction qs as [|q qs IH]; intros w HP; [done|].
  cbn [serve snd]. apply IH. eapply Hstep; [apply handle_db_step | done].
Qed.

Lemma NoDup_map_snoc {A} (f : A → string) (l : list A) (x : A) :
  NoDup (map f l) → f x ∉ map f l → NoDup (map f (l ++ [x])).
Proof.
  intros Hl Hx. rewrite map_app. apply NoDup_app. split_and!; [done| |].
  - intros y Hy. cbn. rewrite list_elem_of_singleton. intros ->. done.
  - cbn. apply NoDup_singleton.
Qed.

Lemma db_step_unique d d' : db_step d d' → db_unique d → db_unique d'.
Proof.
  intros Hs (Hi & He & Hm). destruct Hs as [|u Hf Hn|m Hf Hu]; [done| |].
  - split_and!; cbn [users messages];
      [by apply NoDup_map_snoc | by apply NoDup_map_snoc | done].
  - split_and!; cbn [users messages]; [done | done |].
    by apply NoDup_map_snoc.
Qed.

Lemma db_step_referential d d' :
  db_step d d' → db_referential d → db_referential d'.
Proof.
  unfold db_referential. intros Hs Hr.
  destruct Hs as [|u Hf Hn|m Hf Hu]; [done| |]; cbn [messages].
  - eapply Forall_impl; [exact Hr|]. intros x Hx. by apply has_user_app.
  - apply Forall_app. split; [done|]. by apply Forall_singleton.
Qed.

Lemma db_step_prefix d d' :
  db_step d d' →
  users d `prefix_of` users d' ∧ messages d `prefix_of` messages d'.
Proof.
  intros [|u _ _|m _ _]; cbn [users messages]; split;
    try done; by apply prefix_app_r.
Qed.

(** X8: whatever requests are served, a database that satisfies the
    schema's PRIMARY KEY and UNIQUE constraints and in which every
    message has its owner keeps doing so: user identifiers, emails and
    message identifiers stay pairwise distinct, and no message is left
    without a user, although the store does not enforce the foreign
    key. *)
Theorem serve_keeps_integrity (qs : list request) (w : World) :
  db_unique (db w) → db_referential (db w) →
  db_unique (db (snd (serve qs w))) ∧
  db_referential (db (snd (serve qs w))).
Proof.
  intros Hu Hr.
  apply (serve_db_invariant (λ d, db_unique d ∧ db_referential d));
    [|done].
  intros d d' Hs [? ?].
  split; [by eapply db_step_unique | by eapply db_step_referential].
Qed.

Lemma serve_keeps_integrity_witness :
  db_unique (db (snd (serve SampleMore.mixed Sample.busy))) ∧
  db_referential (db (snd (serve SampleMore.mixed Sample.busy))).
Proof.
  apply (serve_keeps_integrity SampleMore.mixed Sample.busy); compute_done.
Defined.

(** X9: rows are only ever appended: after any requests, the users
    table and the messages table begin with the rows they had, in the
    same order and unchanged. *)
Theorem serve_append_only (qs : list request) (w : World) :
  users (db w) `prefix_of` users (db (snd (serve qs w))) ∧
  messages (db w) `prefix_of` messages (db (snd (serve qs w))).
Proof.
  revert w. induction qs as [|q qs IH]; intros w; [done|].
  cbn [serve snd].
  destruct (db_step_prefix _ _ (handle_db_step q w)) as [Hu Hm].
  destruct (IH (world (handle q w))) as [Hu' Hm'].
  split; etrans; done.
Qed.


(** X10: only the user of a [postMessage] request can have its stored
    timestamps changed by serving it; every other request, and every
    other user's post, leaves them alone. *)
Theorem handle_rate_limit_frame (q : request) (w : World) (userId : string) :
  (∀ env body, q ≠ ReqPostMessage env userId body) →
  rateLimitStore (world (handle q w)) !! userId = rateLimitStore w !! userId.
Proof.
  intros Hq. destruct q as [| |u|env name email|env u body]; unfold handle;
    rewrite bind_ret_world.
  - done.
  - done.
  - rewrite listMessagesForUser_eq.
    by destruct (select_user_id_by_id u (db w)).
  - by rewrite createUser_rateLimitStore.
  - assert (u ≠ userId) as Hne by (intros ->; by apply (Hq env body)).
    destruct (postMessage_outcome env u body w)
      as [(_ & Hr)|[(_ & _ & Hr)|[(_ & _ & _ & s & Hr)|(_ & _ & _ & Hr)]]];
      rewrite Hr; unfold world; cbn [fst snd rateLimitStore]; try done.
    by rewrite lookup_insert_ne.
Qed.

Lemma handle_rate_limit_frame_witness :
  rateLimitStore (world (handle (ReqPostMessage Sample.env "u-ann" "Again")
                           Sample.busy)) !! "u-bob"
  = rateLimitStore Sample.busy !! "u-bob".
Proof.
  apply (handle_rate_limit_frame (ReqPostMessage Sample.env "u-ann" "Again")
           Sample.busy "u-bob").
  by intros env body [=].
Defined.

(** ** The window of the rate limiter *)

Lemma in_window_none now (s : list Z) :
  Forall (λ ts, ts ≤ now - windowDuration) s → in_window now s = [].
Proof.
  unfold in_window. induction 1 as [|x s Hx _ IH]; [done|].
  rewrite filter_cons, decide_False by lia. done.
Qed.

(** X11: timestamps are pruned on access.  After a post that returned,
    every timestamp stored for the user is later than [now] minus one
    hour; and a user whose stored timestamps are all one hour old or
    older, however many they are, can post (the identifier being new),
    after which the stored sequence is [now] alone. *)
Theorem postMessage_prunes_window env userId messageBody w :
  (∀ m, result (postMessage env userId messageBody w) = Return m →
     Forall (λ ts, Date_now env - 3600000 < ts)
       (stored_timestamps userId
          (world (postMessage env userId messageBody w)))) ∧
  (has_user userId (db w) →
   fresh_message_id (uuidv4 env) (db w) →
   Forall (λ ts, ts ≤ Date_now env - 3600000) (stored_timestamps userId w) →
   result (postMessage env userId messageBody w)
     = Return (new_message env userId messageBody) ∧
   stored_timestamps userId (world (postMessage env userId messageBody w))
     = [Date_now env]).
Proof.
  split.
  - intros m H.
    destruct (postMessage_outcome env userId messageBody w)
      as [(_ & Hr)|[(_ & _ & Hr)|[(_ & _ & _ & s & Hr)|(_ & _ & _ & Hr)]]];
      rewrite Hr in H |- *; try done.
    unfold world, stored_timestamps at 1. cbn [fst snd rateLimitStore].
    rewrite lookup_insert_eq. cbn. apply Forall_app. split.
    + unfold in_window, windowDuration. apply Forall_forall.
      intros ts Hts. by apply list_elem_of_filter in Hts as [? _].
    + apply Forall_singleton. lia.
  - intros Hu Hf Hold.
    pose proof (in_window_none _ _ Hold) as Hnone.
    destruct (postMessage_outcome env userId messageBody w)
      as [(? & _)|[(_ & Hl & _)|[(_ & _ & ? & _)|(_ & _ & _ & Hr)]]];
      try done.
    + rewrite Hnone in Hl. unfold limit in Hl. cbn in Hl. lia.
    + rewrite Hr. split; [done|]. unfold world. cbn [fst snd].
      unfold stored_timestamps at 1. cbn [rateLimitStore].
      rewrite lookup_insert_eq, Hnone. done.
Qed.

Lemma postMessage_prunes_window_witness :
  result (postMessage SampleMore.later "u-bob" "Back" Sample.busy)
    = Return (new_message SampleMore.later "u-bob" "Back") ∧
  stored_timestamps "u-bob"
    (world (postMessage SampleMore.later "u-bob" "Back" Sample.busy))
    = [7210000].
Proof.
  apply (postMessage_prunes_window SampleMore.later "u-bob" "Back"
           Sample.busy); compute_done.
Defined.

(** ** Ordered listings and the chain of a user's messages *)

Lemma order_by_creationDate_sorted_id l :
  Sorted date_le l → order_by_creationDate l = l.
Proof.
  induction 1 as [|x l Hs IH Hhd]; [done|].
  cbn [order_by_creationDate]. rewrite IH.
  destruct Hhd as [|y l' Hxy]; [done|].
  cbn [insert_by_creationDate]. unfold date_le in Hxy. by rewrite Hxy.
Qed.

(** X12: [listAllMessages] returns every row of the messages table once,
    in ascending order of creation date, and changes nothing; when the
    rows were inserted with dates that never decrease, it returns the
    table as it is, in insertion order. *)
Theorem listAllMessages_sorted w :
  (∃ l, listAllMessages w = (Return l, w, [DbRead]) ∧
        l ≡ₚ messages (db w) ∧
        Sorted date_le l) ∧
  (Sorted date_le (messages (db w)) →
   result (listAllMessages w) = Return (messages (db w))).
Proof.
  split.
  - exists (order_by_creationDate (messages (db w))). split_and!.
    + done.
    + apply order_by_creationDate_perm.
    + apply order_by_creationDate_sorted.
  - intros Hs. unfold listAllMessages, db_query, result. cbn [fst].
    unfold select_messages_ordered.
    by rewrite order_by_creationDate_sorted_id.
Qed.

Lemma listAllMessages_sorted_witness :
  result (listAllMessages
            (start (mkDb [Sample.ann] [Sample.m1; Sample.m2; Sample.m3])))
  = Return [Sample.m1; Sample.m2; Sample.m3].
Proof.
  apply (listAllMessages_sorted
           (start (mkDb [Sample.ann] [Sample.m1; Sample.m2; Sample.m3]))).
  repeat constructor.
Defined.

Lemma insert_by_creationDate_snoc x k n :
  date_le x n →
  insert_by_creationDate x (k ++ [n]) = insert_by_creationDate x k ++ [n].
Proof.
  intros Hxn. induction k as [|y k IH]; cbn.
  - unfold date_le in Hxn. by rewrite Hxn.
  - destruct (String.leb _ _); [done|]. by rewrite IH.
Qed.

Lemma order_by_creationDate_snoc l n :
  Forall (λ x, date_le x n) l →
  order_by_creationDate (l ++ [n]) = order_by_creationDate l ++ [n].
Proof.
  induction 1 as [|x l Hx _ IH]; [done|].
  cbn [app order_by_creationDate]. rewrite IH.
  by apply insert_by_creationDate_snoc.
Qed.

Lemma Sorted_lookup_succ (l : list Message) i a b :
  Sorted date_le l → l !! i = Some a → l !! S i = Some b → date_le a b.
Proof.
  intros Hs. revert i. induction Hs as [|x l Hs IH Hhd]; intros i; [done|].
  destruct i as [|i]; cbn.
  - intros [= <-] Hb. destruct Hhd as [|y l' Hxy]; [done|].
    cbn in Hb. by injection Hb as <-.
  - apply IH.
Qed.

Lemma position_of_lookup_NoDup (l : list Message) i x :
  NoDup (map msg_id l) → l !! i = Some x → position_of (msg_id x) l = Some i.
Proof.
  intros Hn Hi. apply position_of_first. split; [by exists x|].
  intros j y Hj Hy Heq.
  assert (j = i); [|lia].
  change (map msg_id l) with (msg_id <$> l) in Hn.
  apply (NoDup_lookup (msg_id <$> l) j i (msg_id x)); [done| |].
  - by rewrite list_lookup_fmap, Hy, <- Heq.
  - by rewrite list_lookup_fmap, Hi.
Qed.

Lemma select_messages_by_userId_ordered_elem userId d x :
  x ∈ select_messages_by_userId_ordered userId d ↔
  x ∈ messages d ∧ msg_userId x = userId.
Proof.
  unfold select_messages_by_userId_ordered.
  rewrite order_by_creationDate_perm, select_messages_by_userId_eq.
  rewrite list_elem_of_filter. tauto.
Qed.

Lemma select_messages_by_userId_ordered_NoDup userId d :
  NoDup (map msg_id (messages d)) →
  NoDup (map msg_id (select_messages_by_userId_ordered userId d)).
Proof.
  intros Hn. unfold select_messages_by_userId_ordered.
  change (map msg_id ?l) with (msg_id <$> l) in *.
  rewrite order_by_creationDate_perm, select_messages_by_userId_eq.
  eapply sublist_NoDup; [exact Hn|].
  apply fmap_sublist, sublist_filter.
Qed.

(** The position of a stored message among its owner's messages, when
    message identifiers are distinct. *)
Lemma stored_message_position message d :
  NoDup (map msg_id (messages d)) → message ∈ messages d →
  ∃ i, select_messages_by_userId_ordered (msg_userId message) d !! i
         = Some message ∧
       position_of (msg_id message)
         (select_messages_by_userId_ordered (msg_userId message) d) = Some i.
Proof.
  intros Hn Hin.
  assert (Hl : message ∈ select_messages_by_userId_ordered
                           (msg_userId message) d)
    by (by apply select_messages_by_userId_ordered_elem).
  apply list_elem_of_lookup in Hl as [i Hi]. exists i. split; [done|].
  apply position_of_lookup_NoDup; [|done].
  by apply select_messages_by_userId_ordered_NoDup.
Qed.

(** X13: with distinct message identifiers, the two resolvers are each
    other's inverse on stored messages: if [nextPostedMessage] of [m]
    is [n] then [previousPostedMessage] of [n] is [m], and if
    [previousPostedMessage] of [m] is [p] then [nextPostedMessage] of
    [p] is [m]. *)
Theorem next_previous_inverse m w :
  NoDup (map msg_id (messages (db w))) →
  m ∈ messages (db w) →
  (∀ n, result (nextPostedMessage m w) = Return (Some n) →
        result (previousPostedMessage n w) = Return (Some m)) ∧
  (∀ p, result (previousPostedMessage m w) = Return (Some p) →
        result (nextPostedMessage p w) = Return (Some m)).
Proof.
  intros Hn Hin.
  destruct (stored_message_position m (db w) Hn Hin) as (i & Hi & Hpos).
  pose proof (select_messages_by_userId_ordered_NoDup (msg_userId m) (db w) Hn)
    as Hnl.
  set (l := select_messages_by_userId_ordered (msg_userId m) (db w)) in *.
  assert (Hsame : ∀ x j, l !! j = Some x →
            select_messages_by_userId_ordered (msg_userId x) (db w) = l
            ∧ position_of (msg_id x) l = Some j).
  { intros x j Hj. split.
    - assert (x ∈ l) as Hx by (by eapply list_elem_of_lookup_2).
      apply select_messages_by_userId_ordered_elem in Hx as [_ ->]. done.
    - by apply position_of_lookup_NoDup. }
  split.
  - intros n. rewrite nextPostedMessage_eq. cbv zeta. fold l. rewrite Hpos.
    unfold result. cbn [fst]. intros [= Hnext].
    destruct (Hsame n (S i) Hnext) as [Hl Hp].
    rewrite previousPostedMessage_eq. cbv zeta. rewrite Hl, Hp. cbn [fst].
    by rewrite Hi.
  - intros p. rewrite previousPostedMessage_eq. cbv zeta. fold l. rewrite Hpos.
    unfold result. cbn [fst]. destruct i as [|i]; [done|]. intros [= Hprev].
    destruct (Hsame p i Hprev) as [Hl Hp].
    rewrite nextPostedMessage_eq. cbv zeta. rewrite Hl, Hp. cbn [fst].
    by rewrite Hi.
Qed.

Lemma next_previous_inverse_witness :
  result (previousPostedMessage Sample.m3 Sample.busy)
    = Return (Some Sample.m2).
Proof.
  destruct (next_previous_inverse Sample.m2 Sample.busy) as [H _];
    [compute_done | compute_done |].
  apply H. vm_compute. reflexivity.
Defined.

(** X14: with distinct message identifiers, the neighbours of a stored
    message are in chronological order and belong to the same user:
    the previous message is not dated after it and the next message is
    not dated before it. *)
Theorem previous_next_chronological m w :
  NoDup (map msg_id (messages (db w))) →
  m ∈ messages (db w) →
  (∀ p, result (previousPostedMessage m w) = Return (Some p) →
        date_le p m ∧ msg_userId p = msg_userId m ∧ p ∈ messages (db w)) ∧
  (∀ n, result (nextPostedMessage m w) = Return (Some n) →
        date_le m n ∧ msg_userId n = msg_userId m ∧ n ∈ messages (db w)).
Proof.
  intros Hn Hin.
  destruct (stored_message_position m (db w) Hn Hin) as (i & Hi & Hpos).
  pose proof (order_by_creationDate_sorted
                (select_messages_by_userId (msg_userId m) (db w))) as Hs.
  fold (select_messages_by_userId_ordered (msg_userId m) (db w)) in Hs.
  assert (Hmem : ∀ x j,
            select_messages_by_userId_ordered (msg_userId m) (db w) !! j
              = Some x →
            msg_userId x = msg_userId m ∧ x ∈ messages (db w)).
  { intros x j Hj. apply list_elem_of_lookup_2 in Hj.
    apply select_messages_by_userId_ordered_elem in Hj. tauto. }
  split.
  - intros p. rewrite previousPostedMessage_eq. cbv zeta. rewrite Hpos.
    unfold result. cbn [fst]. destruct i as [|i]; [done|]. intros [= Hprev].
    split; [by eapply Sorted_lookup_succ | by eapply Hmem].
  - intros n. rewrite nextPostedMessage_eq. cbv zeta. rewrite Hpos.
    unfold result. cbn [fst]. intros [= Hnext].
    split; [by eapply Sorted_lookup_succ | by eapply Hmem].
Qed.

Lemma previous_next_chronological_witness :
  date_le Sample.m2 Sample.m3 ∧ msg_userId Sample.m3 = msg_userId Sample.m2
  ∧ Sample.m3 ∈ messages (db Sample.busy).
Proof.
  destruct (previous_next_chronological Sample.m2 Sample.busy) as [_ H];
    [compute_done | compute_done |].
  apply H. vm_compute. reflexivity.
Defined.

Lemma position_of_snoc_fresh id (k : list Message) m :
  Forall (λ x, msg_id x ≠ id) k → msg_id m = id →
  position_of id (k ++ [m]) = Some (length k).
Proof.
  intros Hk Hm. induction Hk as [|x k Hx _ IH]; cbn.
  - by rewrite decide_True.
  - rewrite decide_False by done. by rewrite IH.
Qed.

(** X15: a post dated not before the user's earlier messages goes to the
    end of the user's chain: in the world after a [postMessage] that
    returned [m], [previousPostedMessage] of [m] is the last of the
    user's earlier messages in date order (null if there was none),
    [nextPostedMessage] of [m] is null, and, message identifiers being
    distinct, [nextPostedMessage] of that earlier last message is [m]. *)
Theorem postMessage_extends_chain env userId messageBody w m :
  result (postMessage env userId messageBody w) = Return m →
  Forall (λ x, date_le x m) (select_messages_by_userId userId (db w)) →
  let w' := world (postMessage env userId messageBody w) in
  let earlier := select_messages_by_userId_ordered userId (db w) in
  result (previousPostedMessage m w') = Return (last earlier) ∧
  result (nextPostedMessage m w') = Return None ∧
  (NoDup (map msg_id (messages (db w))) →
   ∀ p, last earlier = Some p →
        result (nextPostedMessage p w') = Return (Some m)).
Proof.
  intros H Hdates w' earlier. subst w'.
  destruct (postMessage_outcome env userId messageBody w)
    as [(_ & Hr)|[(_ & _ & Hr)|[(_ & _ & _ & s & Hr)|(Hu & _ & Hf & Hr)]]];
    rewrite Hr in H |- *; try done.
  unfold result in H. cbn [fst] in H. injection H as <-.
  unfold world. cbn [fst snd].
  set (m := new_message env userId messageBody) in *.
  set (w' := mkWorld _ _).
  assert (Hl' : select_messages_by_userId_ordered userId (db w')
                = earlier ++ [m]).
  { unfold select_messages_by_userId_ordered, select_messages_by_userId, w'.
    cbn [db messages]. rewrite List.filter_app. cbn [List.filter].
    change (msg_userId m) with userId. rewrite String.eqb_refl.
    by apply order_by_creationDate_snoc. }
  assert (Hfresh : Forall (λ x, msg_id x ≠ msg_id m) earlier).
  { apply Forall_forall. intros x Hx Heq.
    apply select_messages_by_userId_ordered_elem in Hx as [Hx _].
    apply Hf. change (uuidv4 env) with (msg_id m). rewrite <- Heq.
    by apply (list_elem_of_fmap_2 msg_id). }
  assert (Hpos : position_of (msg_id m) (earlier ++ [m])
                 = Some (length earlier))
    by (by apply position_of_snoc_fresh).
  split_and!.
  - rewrite previousPostedMessage_eq. cbv zeta.
    change (msg_userId m) with userId. rewrite Hl', Hpos.
    unfold result. cbn [fst]. f_equal. rewrite last_lookup.
    destruct (length earlier) as [|k] eqn:Ek.
    + by destruct earlier.
    + cbn [pred]. apply lookup_app_l. lia.
  - rewrite nextPostedMessage_eq. cbv zeta.
    change (msg_userId m) with userId. rewrite Hl', Hpos.
    unfold result. cbn [fst]. f_equal.
    apply lookup_ge_None_2. rewrite length_app. cbn. lia.
  - intros Hn p Hp.
    assert (Hn' : NoDup (map msg_id (messages (db w')))).
    { unfold w'. cbn [db messages]. by apply NoDup_map_snoc. }
    apply (select_messages_by_userId_ordered_NoDup userId) in Hn'.
    rewrite Hl' in Hn'.
    rewrite last_lookup in Hp.
    assert (Hlen : (0 < length earlier)%nat).
    { destruct earlier; [done|cbn; lia]. }
    assert (Hp' : (earlier ++ [m]) !! pred (length earlier) = Some p).
    { rewrite lookup_app_l by lia. done. }
    assert (Hpu : msg_userId p = userId).
    { apply list_elem_of_lookup_2 in Hp.
      by apply select_messages_by_userId_ordered_elem in Hp as [_ ?]. }
    rewrite nextPostedMessage_eq. cbv zeta. rewrite Hpu, Hl'.
    rewrite (position_of_lookup_NoDup _ _ _ Hn' Hp').
    unfold result. cbn [fst]. f_equal.
    replace (S (pred (length earlier))) with (length earlier) by lia.
    by rewrite list_lookup_middle.
Qed.

Lemma postMessage_extends_chain_witness :
  result (previousPostedMessage (new_message Sample.env "u-ann" "Message 4")
            (world (postMessage Sample.env "u-ann" "Message 4" Sample.busy)))
  = Return (Some Sample.m3).
Proof.
  destruct (postMessage_extends_chain Sample.env "u-ann" "Message 4"
              Sample.busy (new_message Sample.env "u-ann" "Message 4"))
    as (H & _).
  - vm_compute. reflexivity.
  - repeat constructor.
  - rewrite H. vm_compute. reflexivity.
Defined.

(** ** The random-integer script *)

Lemma generator_collect_acc data : ∀ rs es,
  fold_left
    (fun acc r =>
       match r with
       | Generator.fulfilled v => (fst acc ++ [v], snd acc)
       | Generator.rejected e => (fst acc, snd acc ++ [e])
       end)
    data (rs, es)
  = (rs ++ Generator.values data, es ++ Generator.reasons data).
Proof.
  induction data as [|[v|e] data IH]; intros rs es; cbn.
  - by rewrite !app_nil_r.
  - rewrite IH. by rewrite <- app_assoc.
  - rewrite IH. by rewrite <- app_assoc.
Qed.

Lemma generator_collect data :
  Generator.collect data = (Generator.values data, Generator.reasons data).
Proof. unfold Generator.collect. by rewrite generator_collect_acc. Qed.

Lemma generator_lengths data :
  (length (Generator.values data) + length (Generator.reasons data)
   = length data)%nat ∧
  length (List.filter Generator.is_fulfilled data)
    = length (Generator.values data) ∧
  length (List.filter Generator.is_rejected data)
    = length (Generator.reasons data).
Proof.
  unfold Generator.values, Generator.reasons.
  induction data as [|[v|e] data (IH1 & IH2 & IH3)]; cbn; [done| |];
    split_and!; lia.
Qed.

Lemma generator_sort_insert_perm a l : Generator.sort_insert a l ≡ₚ a :: l.
Proof.
  induction l as [|b l IH]; [done|]. cbn.
  destruct (Generator.compareFn a b <=? 0); [done|].
  rewrite IH. apply Permutation_swap.
Qed.

Lemma generator_sort_insert_sorted a l :
  Sorted Z.le l → Sorted Z.le (Generator.sort_insert a l).
Proof.
  induction 1 as [|b l Hs IH Hhd]; cbn.
  - by repeat constructor.
  - unfold Generator.compareFn.
    destruct (Z.leb_spec (a - b) 0).
    + constructor; [by constructor|]. constructor. lia.
    + constructor; [done|].
      destruct Hhd as [|c l' Hbc]; cbn.
      * constructor. lia.
      * destruct (_ <=? 0); constructor; lia.
Qed.

(** X16: the condition of the script's [console.assert] holds however
    the promises settle: the fulfilled and the rejected ones together
    are all of them, so the numbers collected and the failures counted
    add up to the number of promises. *)
Theorem generator_counts_match (data : list Generator.settled) :
  Generator.counts_match data = true ∧
  (length (fst (Generator.collect data))
   + length (snd (Generator.collect data)) = length data)%nat.
Proof.
  destruct (generator_lengths data) as (H1 & H2 & H3).
  rewrite generator_collect. cbn [fst snd]. split; [|done].
  unfold Generator.counts_match. rewrite H2, H3. apply Z.eqb_eq. lia.
Qed.

(** X17: the script logs the fulfilled values, each as often as it was
    produced, in ascending order, and as failed attempts the number of
    rejected promises. *)
Theorem generator_report_sorted (data : list Generator.settled) :
  Sorted Z.le (fst (Generator.report data)) ∧
  fst (Generator.report data) ≡ₚ Generator.values data ∧
  snd (Generator.report data)
    = Z.of_nat (length (List.filter Generator.is_rejected data)).
Proof.
  unfold Generator.report. rewrite generator_collect. cbn [fst snd].
  split_and!.
  - induction (Generator.values data) as [|a l IH]; cbn; [constructor|].
    by apply generator_sort_insert_sorted.
  - induction (Generator.values data) as [|a l IH]; cbn; [done|].
    by rewrite generator_sort_insert_perm, IH.
  - f_equal. symmetry. apply generator_lengths.
Qed.

Example generator_report_sample :
  Generator.report Generator.sample = ([0; 7; 7; 42; 99], 2).
Proof. reflexivity. Qed.

(** ** What the rate limiter guarantees *)






